(** * ids-dashboard: classifier, query pipeline and refresh logic

    A shallow embedding of the data-shaping code of the three dashboard
    pages ([SystemLogs.tsx], [Analytics.tsx], [Overview.tsx]) and the
    properties of it that the specification states.

    Conventions of the embedding.
    - A JavaScript string is a [string]; [includes] is substring search.
      [String.prototype.toLowerCase], [Date.prototype.getTime] and
      [String.prototype.localeCompare] are built-ins of the host, not code
      of the pages: the definitions take them as parameters
      ([Section] variables) and the theorems hold for every choice of
      them.  [ascii_toLowerCase] is one concrete choice (the host's
      function restricted to ASCII text) used to run the examples.
    - An optional field ([severity?], [type?]) is an [option]; JavaScript
      truthiness is written out ([truthy_string]: the empty string is
      falsy).
    - A number that can be [NaN] is a [number]; sums and differences of
      integers are computed in [Z]. *)

From Stdlib Require Import ZArith QArith Qround Lia.
Close Scope Q_scope.
From stdpp Require Import base list sorting strings gmap.

(** ** Strings *)

Module Js.

(** [prefix t s]: [s] starts with [t]. *)
Fixpoint prefix (t s : string) : bool :=
  match t, s with
  | EmptyString, _ => true
  | String _ _, EmptyString => false
  | String a t', String b s' => if Ascii.eqb a b then prefix t' s' else false
  end.

(** [includes s t] is [s.includes(t)]: [t] occurs in [s] as a contiguous
    substring (the empty string occurs everywhere). *)
Fixpoint includes (s t : string) : bool :=
  match s with
  | EmptyString => prefix t EmptyString
  | String _ s' => prefix t s || includes s' t
  end.

(** ToBoolean on a string: only the empty string is falsy. *)
Definition truthy_string (s : string) : bool :=
  match s with EmptyString => false | String _ _ => true end.

(** ToBoolean on a [string | undefined] (or [string | null]) value. *)
Definition truthy (o : option string) : bool :=
  match o with None => false | Some s => truthy_string s end.

(** [v || d] on numbers that are never [NaN]: zero is falsy. *)
Definition or_default (v d : Z) : Z := if (v =? 0)%Z then d else v.

(** A JavaScript number that is an integer or [NaN]. *)
Inductive number := NaN | Num (z : Z).

Definition sub (a b : number) : number :=
  match a, b with Num x, Num y => Num (x - y) | _, _ => NaN end.

Definition neg (a : number) : number :=
  match a with Num x => Num (- x) | NaN => NaN end.

(** The lower-case letter of an upper-case ASCII letter; every other
    character is left as it is. *)
Definition ascii_lower (c : Ascii.ascii) : Ascii.ascii :=
  let n := Ascii.nat_of_ascii c in
  if (65 <=? n)%nat && (n <=? 90)%nat then Ascii.ascii_of_nat (n + 32) else c.

Fixpoint ascii_toLowerCase (s : string) : string :=
  match s with
  | EmptyString => EmptyString
  | String c s' => String (ascii_lower c) (ascii_toLowerCase s')
  end.

(** Code-unit order, a stand-in for [localeCompare] in the examples. *)
Fixpoint ascii_compare (a b : string) : Z :=
  match a, b with
  | EmptyString, EmptyString => 0
  | EmptyString, String _ _ => -1
  | String _ _, EmptyString => 1
  | String x a', String y b' =>
      match Nat.compare (Ascii.nat_of_ascii x) (Ascii.nat_of_ascii y) with
      | Lt => -1
      | Gt => 1
      | Eq => ascii_compare a' b'
      end
  end.

End Js.

(** ** Log records ([SystemLogs.tsx], [interface LogEntry]) *)

Inductive Severity := low | medium | high | critical.

#[global] Instance Severity_eq_dec : EqDecision Severity.
Proof. solve_decision. Defined.

(** The string a severity is in the source. *)
Definition severity_name (s : Severity) : string :=
  match s with
  | low => "low"
  | medium => "medium"
  | high => "high"
  | critical => "critical"
  end.

Record LogEntry := mkLog {
  timestamp : string;
  source : string;
  content : string;
  severity : option Severity;
  type : option string
}.

#[global] Instance LogEntry_eq_dec : EqDecision LogEntry.
Proof. solve_decision. Defined.

Definition set_severity (log : LogEntry) (s : Severity) : LogEntry :=
  mkLog (timestamp log) (source log) (content log) (Some s) (type log).

Definition set_type (log : LogEntry) (t : string) : LogEntry :=
  mkLog (timestamp log) (source log) (content log) (severity log) (Some t).

(** ** The classifier (the callback of [logsData.map] in [loadData]) *)

Section Classifier.

Variable toLowerCase : string -> string.

(** [if (!log.severity) { ... }]: every severity name is a non-empty
    string, so the test succeeds exactly on an absent field. *)
Definition classify_severity (log : LogEntry) : LogEntry :=
  match severity log with
  | Some _ => log
  | None =>
      if Js.includes (toLowerCase (content log)) "critical" then
        set_severity log critical
      else if Js.includes (toLowerCase (content log)) "alert"
              || Js.includes (toLowerCase (content log)) "warning" then
        set_severity log high
      else if Js.includes (toLowerCase (content log)) "notice" then
        set_severity log medium
      else
        set_severity log low
  end.

(** [if (!log.type) { ... }]: the test succeeds on an absent field and on
    the empty string. *)
Definition classify_type (log : LogEntry) : LogEntry :=
  if Js.truthy (type log) then log
  else if Js.includes (source log) "ids" || Js.includes (source log) "snort" then
    set_type log "intrusion"
  else if Js.includes (source log) "auth" then
    set_type log "authentication"
  else if Js.includes (source log) "fw" || Js.includes (source log) "firewall" then
    set_type log "firewall"
  else
    set_type log "system".

Definition classify (log : LogEntry) : LogEntry :=
  classify_type (classify_severity log).

Definition enhancedLogs (logsData : list LogEntry) : list LogEntry :=
  map classify logsData.

End Classifier.

(** ** The query pipeline ([processedLogs] in [SystemLogs.tsx]) *)

Inductive SortField := by_timestamp | by_source | by_severity.
Inductive SortDirection := asc | desc.

(** [severityOrder[key]] for the object literal
    [{ critical: 0, high: 1, medium: 2, low: 3, undefined: 4 }]: an absent
    severity is the property key ["undefined"]. *)
Definition severityOrder (key : option Severity) : Z :=
  match key with
  | Some critical => 0
  | Some high => 1
  | Some medium => 2
  | Some low => 3
  | None => 4
  end.

(** [Array.prototype.sort(comparefn)].  The built-in calls [comparefn],
    reads a [NaN] result as [+0] and looks only at the sign; it is stable.
    For a consistent comparator every conforming implementation returns
    the same array, the one this insertion sort returns; for any
    comparator the result is a permutation of the input.  Under an
    inconsistent comparator (a [NaN] among other results) the order is
    left to the implementation, and only the permutation carries over. *)
Section ArraySort.

Context {A : Type} (comparefn : A -> A -> Js.number).

Definition sortCompare (x y : A) : Z :=
  match comparefn x y with Js.NaN => 0 | Js.Num v => v end.

Fixpoint insert_sorted (x : A) (l : list A) : list A :=
  match l with
  | [] => [x]
  | y :: l' => if (0 <? sortCompare x y)%Z then y :: insert_sorted x l' else x :: l
  end.

Fixpoint sort (l : list A) : list A :=
  match l with
  | [] => []
  | x :: l' => insert_sorted x (sort l')
  end.

(** "[x] may stand before [y]" for the built-in. *)
Definition in_order (x y : A) : Prop := (sortCompare x y <= 0)%Z.

End ArraySort.

Section QueryPipeline.

Variable toLowerCase : string -> string.
Variable getTime : string -> Js.number.
Variable localeCompare : string -> string -> Z.

(** The callback of the first [result.filter]. *)
Definition matchesFilter (filter : string) (log : LogEntry) : bool :=
  Js.includes (toLowerCase (source log)) (toLowerCase filter)
  || Js.includes (toLowerCase (content log)) (toLowerCase filter)
  || match type log with
     | Some t =>
         Js.truthy_string t && Js.includes (toLowerCase t) (toLowerCase filter)
     | None => false
     end.

(** The callback of the second one: [log.severity === selectedSeverity]. *)
Definition matchesSeverity (selectedSeverity : string) (log : LogEntry) : bool :=
  match severity log with
  | Some s => String.eqb (severity_name s) selectedSeverity
  | None => false
  end.

(** The value of [comparison] when the comparator returns. *)
Definition comparison (sortField : SortField) (a b : LogEntry) : Js.number :=
  match sortField with
  | by_timestamp => Js.sub (getTime (timestamp a)) (getTime (timestamp b))
  | by_source => Js.Num (localeCompare (source a) (source b))
  | by_severity =>
      Js.Num (Js.or_default (severityOrder (severity a)) 4
              - Js.or_default (severityOrder (severity b)) 4)
  end.

Definition comparator (sortField : SortField) (sortDirection : SortDirection)
    (a b : LogEntry) : Js.number :=
  match sortDirection with
  | asc => comparison sortField a b
  | desc => Js.neg (comparison sortField a b)
  end.

Definition processedLogs (logs : list LogEntry) (filter : string)
    (sortField : SortField) (sortDirection : SortDirection)
    (selectedSeverity : option string) : list LogEntry :=
  let result := logs in
  let result :=
    if Js.truthy_string filter then List.filter (matchesFilter filter) result
    else result in
  let result :=
    match selectedSeverity with
    | Some sel =>
        if Js.truthy_string sel then List.filter (matchesSeverity sel) result
        else result
    | None => result
    end in
  sort (comparator sortField sortDirection) result.

(** The value of [result] when [result.sort] is called: the records that
    pass the two filters, in the order of [logs]. *)
Definition filtered (logs : list LogEntry) (filter : string)
    (selectedSeverity : option string) : list LogEntry :=
  let result :=
    if Js.truthy_string filter then List.filter (matchesFilter filter) logs
    else logs in
  match selectedSeverity with
  | Some sel =>
      if Js.truthy_string sel then List.filter (matchesSeverity sel) result
      else result
  | None => result
  end.

End QueryPipeline.

(** ** Promises *)

(** How a promise settles: fulfilled with a value or rejected. *)
Inductive FetchResult (A : Type) :=
  | Resolved (data : A)
  | Rejected (error : string).

Arguments Resolved {A} data.
Arguments Rejected {A} error.

(** [Promise.all] of three promises: fulfilled with the three values when
    all three are fulfilled, rejected as soon as one is rejected. *)
Definition promise_all3 {A B C : Type} (a : FetchResult A) (b : FetchResult B)
    (c : FetchResult C) : FetchResult (A * B * C) :=
  match a, b, c with
  | Resolved x, Resolved y, Resolved z => Resolved (x, y, z)
  | Rejected e, _, _ => Rejected e
  | _, Rejected e, _ => Rejected e
  | _, _, Rejected e => Rejected e
  end.

(** The promise was rejected. *)
Definition failed {A : Type} (r : FetchResult A) : bool :=
  match r with Resolved _ => false | Rejected _ => true end.

(** ** The refresh cycle of the logs view ([SystemLogs.tsx]) *)

Module SystemLogs.

Record AlertSummary := mkAlertSummary {
  total_alerts : Z;
  by_type : gmap string Z;
  by_severity : gmap string Z
}.

Record ThreatSummary := mkThreatSummary {
  threat_total_alerts : Z;
  alerts_last_hour : Z;
  alerts_last_day : Z;
  severity_counts : gmap string Z;
  top_threats : list (string * Z)
}.

(** The [useState] cells that [loadData] writes, and around them what the
    page does not hold itself: the number of [loadData] calls suspended
    at their [await], and the lines written with [console.error]. *)
Record State := mkState {
  logs : list LogEntry;
  loading : bool;
  alertSummary : option AlertSummary;
  threatSummary : option ThreatSummary;
  inFlight : nat;
  console : list string
}.

(** The initial values of the cells, before the effect has run. *)
Definition initial : State := mkState [] true None None 0 [].

Section Refresh.

Variable toLowerCase : string -> string.

(** [loadData] up to its [await]: [setLoading(true)] and the three
    fetches are issued.  Nothing is looked at before it starts. *)
Definition loadData_start (st : State) : State :=
  mkState (logs st) true (alertSummary st) (threatSummary st)
          (S (inFlight st)) (console st).

(** [loadData] from its [await] on, when the three fetches have settled:
    the [try] body continues on fulfilment, [catch] runs on rejection,
    [finally] runs in both cases. *)
Definition loadData_resume (logsData : FetchResult (list LogEntry))
    (alertData : FetchResult AlertSummary)
    (threatData : FetchResult ThreatSummary) (st : State) : State :=
  match promise_all3 logsData alertData threatData with
  | Resolved (l, a, t) =>
      mkState (enhancedLogs toLowerCase l) false (Some a) (Some t)
              (pred (inFlight st)) (console st)
  | Rejected _ =>
      mkState (logs st) false (alertSummary st) (threatSummary st)
              (pred (inFlight st))
              (console st ++ ["Error loading system logs data:"])
  end.

(** What can happen to the mounted page: its interval timer fires, or the
    fetches of a suspended [loadData] settle. *)
Inductive Event :=
  | Tick
  | Settled (logsData : FetchResult (list LogEntry))
            (alertData : FetchResult AlertSummary)
            (threatData : FetchResult ThreatSummary).

(** [setInterval(loadData, 15000)]: the timer calls [loadData]. *)
Definition step (st : State) (ev : Event) : State :=
  match ev with
  | Tick => loadData_start st
  | Settled l a t =>
      match inFlight st with
      | O => st
      | S _ => loadData_resume l a t st
      end
  end.

(** The effect body: [loadData(); setInterval(loadData, 15000)]. *)
Definition mount : State := loadData_start initial.

Definition run (evs : list Event) : State := fold_left step evs mount.

End Refresh.

End SystemLogs.

(** ** The refresh cycle of the analytics view ([Analytics.tsx]) *)

Module Analytics.

Record Analytics := mkAnalytics {
  timestamps : list string;
  cpu : list Q;
  memory : list Q;
  protocols : list (string * Q);
  top_ports : list (Z * Z);
  alerts_count : Z;
  network_packets_count : Z;
  total_log_entries : Z
}.

Section Refresh.

(** The element types of the three [any[]] cells. *)
Context {Alert Network Metric : Type}.

(** The cells that [loadData] writes, the number of fetches not yet
    settled, and the console. *)
Record State := mkState {
  analytics : option Analytics;
  alertsData : list Alert;
  networkData : list Network;
  metricsData : list Metric;
  loading : bool;
  lastRefreshed : Z;
  outstanding : nat;
  console : list string
}.

Definition initial (now : Z) : State := mkState None [] [] [] false now 0 [].

(** The synchronous part of [loadData]: [setLoading(false)] and four
    fetches issued, each with its own [then] and [catch]. *)
Definition loadData (st : State) : State :=
  mkState (analytics st) (alertsData st) (networkData st) (metricsData st)
          false (lastRefreshed st) (4 + outstanding st) (console st).

(** One fetch of the view settling; [now] is what [new Date()] reads. *)
Inductive Settle :=
  | AnalyticsSettled (r : FetchResult Analytics) (now : Z)
  | AlertsSettled (r : FetchResult (list Alert))
  | NetworkSettled (r : FetchResult (list Network))
  | MetricsSettled (r : FetchResult (list Metric)).

(** The [then] or [catch] callback of the fetch that settled. *)
Definition settle (st : State) (ev : Settle) : State :=
  match ev with
  | AnalyticsSettled (Resolved data) now =>
      mkState (Some data) (alertsData st) (networkData st) (metricsData st)
              (loading st) now (pred (outstanding st)) (console st)
  | AnalyticsSettled (Rejected _) _ =>
      mkState (analytics st) (alertsData st) (networkData st) (metricsData st)
              (loading st) (lastRefreshed st) (pred (outstanding st))
              (console st ++ ["Error fetching analytics:"])
  | AlertsSettled (Resolved data) =>
      mkState (analytics st) data (networkData st) (metricsData st)
              (loading st) (lastRefreshed st) (pred (outstanding st)) (console st)
  | AlertsSettled (Rejected _) =>
      mkState (analytics st) (alertsData st) (networkData st) (metricsData st)
              (loading st) (lastRefreshed st) (pred (outstanding st))
              (console st ++ ["Error fetching alerts:"])
  | NetworkSettled (Resolved data) =>
      mkState (analytics st) (alertsData st) data (metricsData st)
              (loading st) (lastRefreshed st) (pred (outstanding st)) (console st)
  | NetworkSettled (Rejected _) =>
      mkState (analytics st) (alertsData st) (networkData st) (metricsData st)
              (loading st) (lastRefreshed st) (pred (outstanding st))
              (console st ++ ["Error fetching network data:"])
  | MetricsSettled (Resolved data) =>
      mkState (analytics st) (alertsData st) (networkData st) data
              (loading st) (lastRefreshed st) (pred (outstanding st)) (console st)
  | MetricsSettled (Rejected _) =>
      mkState (analytics st) (alertsData st) (networkData st) (metricsData st)
              (loading st) (lastRefreshed st) (pred (outstanding st))
              (console st ++ ["Error fetching metrics:"])
  end.

(** One refresh cycle: [loadData] runs, then its four fetches settle in
    the order [order] lists them. *)
Definition cycle (order : list Settle) (st : State) : State :=
  fold_left settle order (loadData st).

(** The four fetches of one cycle, in the order they are issued. *)
Definition issued (ra : FetchResult Analytics) (now : Z)
    (rb : FetchResult (list Alert)) (rc : FetchResult (list Network))
    (rd : FetchResult (list Metric)) : list Settle :=
  [AnalyticsSettled ra now; AlertsSettled rb; NetworkSettled rc;
   MetricsSettled rd].

(** [setInterval(loadData, 60000)]: the timer calls [loadData]. *)
Definition tick (st : State) : State := loadData st.

(** The line a settling fetch writes with [console.error], if any. *)
Definition error_line (ev : Settle) : option string :=
  match ev with
  | AnalyticsSettled (Rejected _) _ => Some "Error fetching analytics:"
  | AlertsSettled (Rejected _) => Some "Error fetching alerts:"
  | NetworkSettled (Rejected _) => Some "Error fetching network data:"
  | MetricsSettled (Rejected _) => Some "Error fetching metrics:"
  | _ => None
  end.

End Refresh.

Arguments State : clear implicits.

End Analytics.

(** ** The readings of the overview page ([Overview.tsx]) *)

Module Overview.

(** One element of [metrics], with the fields the page reads.  The fields
    the page guards with [||], [?.] or [? :] may be absent. *)
Record Metric := mkMetric {
  cpu_percent : Q;
  memory_percent : Q;
  load : option Q;
  swap_percent : option Q;
  disk_percent : option Q;
  processes : option Q;
  memory_total : option Q;
  memory_used : option Q
}.

Record NetworkSample := mkNetworkSample {
  incoming_mbps : Q;
  outgoing_kbps : Q;
  total_incoming_gb : Q;
  total_outgoing_mb : Q;
  packet_loss_mb : Q
}.

(** ToBoolean on a [number | undefined]: absent and zero are falsy. *)
Definition truthy (v : option Q) : bool :=
  match v with Some q => negb (Qeq_bool q 0) | None => false end.

(** [v || d]. *)
Definition or_default (v : option Q) (d : Q) : Q :=
  match v with
  | Some q => if Qeq_bool q 0 then d else q
  | None => d
  end.

(** [Math.round(x * 100) / 100] on exact rationals, in lowest terms.  The
    page computes on doubles, where the product can round the other way
    (at 1.005); the properties below use it at 0 only. *)
Definition round2 (x : Q) : Q :=
  Qred (inject_Z (Qfloor (x * 100 + (1 # 2))) / 100)%Q.

(** The object literal [latestMetrics] falls back to. *)
Definition defaultMetrics : Metric :=
  mkMetric 0 0 (Some 0%Q) (Some 0%Q) (Some 0%Q) (Some 0%Q) (Some 0%Q) (Some 0%Q).

Definition latestMetrics (metrics : list Metric) : Metric :=
  match last metrics with
  | Some m => m
  | None => defaultMetrics
  end.

Definition inboundTraffic (networkData : list NetworkSample) : Q :=
  match last networkData with Some n => round2 (incoming_mbps n) | None => 0%Q end.

Definition outboundTraffic (networkData : list NetworkSample) : Q :=
  match last networkData with Some n => round2 (outgoing_kbps n) | None => 0%Q end.

Definition totalInbound (networkData : list NetworkSample) : Q :=
  match last networkData with Some n => round2 (total_incoming_gb n) | None => 0%Q end.

Definition totalOutbound (networkData : list NetworkSample) : Q :=
  match last networkData with Some n => round2 (total_outgoing_mb n) | None => 0%Q end.

Definition packetLoss (networkData : list NetworkSample) : Q :=
  match last networkData with Some n => round2 (packet_loss_mb n) | None => 0%Q end.

(** What a tile shows: a number (before it is formatted) or a literal
    text. *)
Inductive Shown := Number (q : Q) | Text (s : string).

(** The values the tiles of the page are rendered from. *)
Record Readings := mkReadings {
  cpu_usage : Q;                (* latestMetrics.cpu_percent.toFixed(2) *)
  memory_usage : Q;             (* latestMetrics.memory_percent.toFixed(2) *)
  sys_load : Shown;             (* latestMetrics.load?.toFixed(2) || "1.24" *)
  inbound : Q;
  total_inbound : Q;
  outbound : Q;
  total_outbound : Q;
  packet_loss : Q;
  swap_usage : Q;               (* latestMetrics.swap_percent || 2.68 *)
  memory_used_gb : Q;           (* memory_used ? memory_used / 1024 : 21.464 *)
  memory_total_gb : Q;          (* memory_total ? memory_total / 1024 : 31.342 *)
  process_count : Q;            (* latestMetrics.processes || 16 *)
  disk_used : Q;                (* latestMetrics.disk_percent || 15.926 *)
  disk_bar : Q                  (* latestMetrics.disk_percent || 16.77 *)
}.

Definition readings (metrics : list Metric) (networkData : list NetworkSample)
    : Readings :=
  let m := latestMetrics metrics in
  mkReadings
    (cpu_percent m)
    (memory_percent m)
    (match load m with Some x => Number x | None => Text "1.24" end)
    (inboundTraffic networkData)
    (totalInbound networkData)
    (outboundTraffic networkData)
    (totalOutbound networkData)
    (packetLoss networkData)
    (or_default (swap_percent m) (268 # 100)%Q)
    (match memory_used m with
     | Some x => if truthy (Some x) then (x / 1024)%Q else (21464 # 1000)%Q
     | None => (21464 # 1000)%Q
     end)
    (match memory_total m with
     | Some x => if truthy (Some x) then (x / 1024)%Q else (31342 # 1000)%Q
     | None => (31342 # 1000)%Q
     end)
    (or_default (processes m) 16%Q)
    (or_default (disk_percent m) (15926 # 1000)%Q)
    (or_default (disk_percent m) (1677 # 100)%Q).

Section Refresh.

(** The type of the payloads the page declares as [any]. *)
Context {Any : Type}.

(** The array [Promise.all] is fulfilled with. *)
Record Fetched := mkFetched {
  statusData : Any;
  threatData : Any;
  activityData : list Any;
  metricsData : list Metric;
  networkData' : list NetworkSample;
  alertData : Any;
  logsData : list Any
}.

Record State := mkState {
  status : Any;
  threatSummary : option Any;
  userActivity : list Any;
  metrics : list Metric;
  networkData : list NetworkSample;
  alertSummary : option Any;
  logs : list Any;
  loading : bool;
  lastRefreshed : Z
}.

(** The initial values of the cells; [status0] is the placeholder
    [{ status: 'loading', uptime: 0, last_update: '' }]. *)
Definition initial (status0 : Any) (now : Z) : State :=
  mkState status0 None [] [] [] None [] true now.

(** [loadData] from its [await] on: the seven fetches have all been
    fulfilled, or one was rejected. *)
Definition loadData_resume (r : FetchResult Fetched) (now : Z) (st : State)
    : State :=
  match r with
  | Resolved d =>
      mkState (statusData d) (Some (threatData d)) (activityData d)
              (metricsData d) (networkData' d) (Some (alertData d))
              (logsData d) false now
  | Rejected _ =>
      mkState (status st) (threatSummary st) (userActivity st) (metrics st)
              (networkData st) (alertSummary st) (logs st) false
              (lastRefreshed st)
  end.

(** What the component returns. *)
Inductive View := LoadingScreen | Dashboard (r : Readings).

Definition render (st : State) : View :=
  if loading st then LoadingScreen
  else Dashboard (readings (metrics st) (networkData st)).

End Refresh.

Arguments State : clear implicits.
Arguments Fetched : clear implicits.

(** A sample that measures zero everywhere. *)
Definition zeroMetric : Metric :=
  mkMetric 0 0 (Some 0%Q) (Some 0%Q) (Some 0%Q) (Some 0%Q) (Some 0%Q) (Some 0%Q).

Definition zeroNetwork : NetworkSample := mkNetworkSample 0 0 0 0 0.

End Overview.

(** ** The specification's vocabulary *)

(** "[s] contains [kw]". *)
Definition contains (s kw : string) : Prop :=
  exists a b, s = a +:+ kw +:+ b.

(** "Every element that satisfies [p] stands before every element that
    satisfies [q]": no [p] follows a [q]. *)
Fixpoint all_before {A : Type} (p q : A -> bool) (l : list A) : bool :=
  match l with
  | [] => true
  | x :: l' =>
      (negb (q x) || forallb (fun y => negb (p y)) l') && all_before p q l'
  end.

(** A record with a known severity, and one with none. *)
Definition known_severity (log : LogEntry) : bool :=
  match severity log with Some _ => true | None => false end.

Definition no_severity (log : LogEntry) : bool :=
  negb (known_severity log).

(** A record whose severity is high, medium or low. *)
Definition below_critical (log : LogEntry) : bool :=
  match severity log with
  | Some high | Some medium | Some low => true
  | _ => false
  end.

(** The classifier's rules in the specification's words, for a lower-cased
    content and for a source. *)
Definition severity_rule (lowered : string) (s : Severity) : Prop :=
  match s with
  | critical => contains lowered "critical"
  | high =>
      ~ contains lowered "critical"
      /\ (contains lowered "alert" \/ contains lowered "warning")
  | medium =>
      ~ contains lowered "critical" /\ ~ contains lowered "alert"
      /\ ~ contains lowered "warning" /\ contains lowered "notice"
  | low =>
      ~ contains lowered "critical" /\ ~ contains lowered "alert"
      /\ ~ contains lowered "warning" /\ ~ contains lowered "notice"
  end.

Definition type_rule (src : string) (t : string) : Prop :=
  (t = "intrusion" /\ (contains src "ids" \/ contains src "snort"))
  \/ (t = "authentication"
      /\ ~ contains src "ids" /\ ~ contains src "snort" /\ contains src "auth")
  \/ (t = "firewall"
      /\ ~ contains src "ids" /\ ~ contains src "snort" /\ ~ contains src "auth"
      /\ (contains src "fw" \/ contains src "firewall"))
  \/ (t = "system"
      /\ ~ contains src "ids" /\ ~ contains src "snort" /\ ~ contains src "auth"
      /\ ~ contains src "fw" /\ ~ contains src "firewall").

(** The key the severity comparator subtracts:
    [severityOrder[log.severity] || 4]. *)
Definition severity_key (log : LogEntry) : Z :=
  Js.or_default (severityOrder (severity log)) 4.

(** The two records of the specification's filter example; it gives their
    severity and source only. *)
Definition example_logs (t1 t2 : string) : list LogEntry :=
  [mkLog t1 "idsA" "" (Some critical) None;
   mkLog t2 "auth1" "" (Some low) None].

(** The two filters of the view in the specification's words. *)
Section FilterSpec.

Variable toLowerCase : string -> string.

(** Case-insensitive substring match of [text] against [field]. *)
Definition matches_ci (field text : string) : Prop :=
  contains (toLowerCase field) (toLowerCase text).

(** The free-text filter: inactive when the text is empty, else a match
    against the source, the content or a type that is set (to a non-empty
    string). *)
Definition text_filter (text : string) (log : LogEntry) : Prop :=
  text = EmptyString
  \/ matches_ci (source log) text
  \/ matches_ci (content log) text
  \/ exists t, type log = Some t /\ t <> EmptyString /\ matches_ci t text.

(** The severity selector: inactive when nothing (or the empty entry "All
    Severities") is selected, else an exact match. *)
Definition severity_filter (selected : option string) (log : LogEntry) : Prop :=
  match selected with
  | None => True
  | Some sel =>
      sel = EmptyString
      \/ exists s, severity log = Some s /\ severity_name s = sel
  end.

End FilterSpec.

(** ** Inputs of the examples *)

Definition log_critical : LogEntry :=
  mkLog "2024-05-01T10:00:00Z" "ids0" "critical failure" (Some critical)
        (Some "intrusion").

Definition log_high : LogEntry :=
  mkLog "2024-05-01T10:00:05Z" "fw0" "warning" (Some high) (Some "firewall").

Definition log_unknown : LogEntry :=
  mkLog "2024-05-01T10:00:09Z" "cron" "" None None.

Definition log_warning : LogEntry :=
  mkLog "2024-05-01T10:00:00Z" "sshd" "WARNING: Alert raised" None None.

Definition log_auth : LogEntry :=
  mkLog "2024-05-01T10:00:00Z" "auth-fw" "login" None None.

Definition log_classified : LogEntry :=
  mkLog "2024-05-01T10:00:00Z" "sshd" "critical" (Some low) (Some "audit").

Definition log_raw : LogEntry :=
  mkLog "2024-05-01T10:00:00Z" "snort" "Notice" None None.

Definition log_empty_type : LogEntry :=
  mkLog "2024-05-01T10:00:00Z" "kernel" "boot" (Some low) (Some "").

(** A host whose dates do not parse. *)
Definition no_time (timestamp : string) : Js.number := Js.NaN.

Definition alerts0 : SystemLogs.AlertSummary :=
  SystemLogs.mkAlertSummary 3 ∅ ∅.

Definition threats0 : SystemLogs.ThreatSummary :=
  SystemLogs.mkThreatSummary 3 1 2 ∅ [].

Definition analytics0 : Analytics.Analytics :=
  Analytics.mkAnalytics [] [] [] [] [] 0 0 0.

(** One cycle of the analytics view, over [nat] payloads: the alerts
    fetch is rejected, the others are fulfilled, and the fetches settle in
    an order that is not the order they were issued in. *)
Definition settled0 : list (@Analytics.Settle nat nat nat) :=
  [Analytics.MetricsSettled (Resolved [7]);
   Analytics.AlertsSettled (Rejected "timeout");
   Analytics.AnalyticsSettled (Resolved analytics0) 60;
   Analytics.NetworkSettled (Resolved [1; 2])].

Definition issued0 : list (@Analytics.Settle nat nat nat) :=
  Analytics.issued (Resolved analytics0) 60 (Rejected "timeout")
                   (Resolved [1; 2]) (Resolved [7]).

(** One cycle of the logs view: the logs fetch is rejected, the two
    summaries are fulfilled. *)
Definition logs_cycle0 : SystemLogs.Event :=
  SystemLogs.Settled (Rejected "timeout") (Resolved alerts0) (Resolved threats0).

(** The overview page after a first cycle that failed, and after a first
    cycle that brought samples measuring zero. *)
Definition overview_never : Overview.State unit :=
  Overview.loadData_resume (Rejected "timeout") 60 (Overview.initial tt 0).

Definition overview_zero : Overview.State unit :=
  Overview.loadData_resume
    (Resolved (Overview.mkFetched tt tt [] [Overview.zeroMetric]
                 [Overview.zeroNetwork] tt []))
    60 (Overview.initial tt 0).

(** ** More of the logs view ([SystemLogs.tsx]) *)

#[global] Instance SortField_eq_dec : EqDecision SortField.
Proof. solve_decision. Defined.

Module LogsPage.

(** [getSeverityClass]: the style of the severity badge.  The parameter
    is any string or [undefined]. *)
Definition getSeverityClass (severity : option string) : string :=
  match severity with
  | Some s =>
      if String.eqb s "critical" then "bg-red-100 text-red-800 font-medium"
      else if String.eqb s "high" then "bg-orange-100 text-orange-800 font-medium"
      else if String.eqb s "medium" then "bg-yellow-100 text-yellow-800 font-medium"
      else if String.eqb s "low" then "bg-green-100 text-green-800 font-medium"
      else "bg-gray-100 text-gray-800"
  | None => "bg-gray-100 text-gray-800"
  end.

(** The badge of a row: [getSeverityClass(log.severity)]. *)
Definition badge (log : LogEntry) : string :=
  getSeverityClass (option_map severity_name (severity log)).

(** The two cells the column headers write. *)
Record Sorting := mkSorting {
  sortField : SortField;
  sortDirection : SortDirection
}.

(** [useState('timestamp')], [useState('desc')]. *)
Definition initialSorting : Sorting := mkSorting by_timestamp desc.

(** [handleSort]: a click on the header of [field]. *)
Definition handleSort (field : SortField) (st : Sorting) : Sorting :=
  if decide (field = sortField st) then
    mkSorting (sortField st)
              (match sortDirection st with asc => desc | desc => asc end)
  else
    mkSorting field desc.

(** [log.severity || 'unknown']. *)
Definition bucket (log : LogEntry) : string :=
  match severity log with
  | Some s => severity_name s
  | None => "unknown"
  end.

(** [severityCounts]: the [reduce] over the view; the accumulator starts
    as the empty object and [acc[severity] || 0] reads a missing key as
    0.  None of the five keys is a property an empty object inherits. *)
Definition severityCounts (processedLogs : list LogEntry) : gmap string nat :=
  fold_left
    (fun acc log =>
       <[bucket log := default 0 (acc !! bucket log) + 1]> acc)
    processedLogs ∅.

(** How many records of [l] fall in the bucket [key]. *)
Definition in_bucket (key : string) (l : list LogEntry) : nat :=
  length (List.filter (fun log => String.eqb (bucket log) key) l).

End LogsPage.

(** ** More of the overview page ([Overview.tsx]) *)

Module OverviewPage.

Section Events.

Context {Any : Type}.

(** What can happen to the mounted page: its interval timer fires, the
    Refresh button is clicked, or the fetches of a suspended [loadData]
    settle. *)
Inductive Event :=
  | Tick
  | Refresh
  | Settled (r : FetchResult (Overview.Fetched Any)) (now : Z).

(** [handleRefresh]: [setLoading(true); loadData()].  [loadData] writes no
    cell before its [await]. *)
Definition handleRefresh (st : Overview.State Any) : Overview.State Any :=
  Overview.mkState (Overview.status st) (Overview.threatSummary st)
    (Overview.userActivity st) (Overview.metrics st) (Overview.networkData st)
    (Overview.alertSummary st) (Overview.logs st) true
    (Overview.lastRefreshed st).

Definition step (st : Overview.State Any) (ev : Event) : Overview.State Any :=
  match ev with
  | Tick => st
  | Refresh => handleRefresh st
  | Settled r now => Overview.loadData_resume r now st
  end.

(** The page after the effect has run ([loadData(); setInterval(...)])
    and the events of [evs] have happened. *)
Definition run (status0 : Any) (now0 : Z) (evs : list Event)
    : Overview.State Any :=
  fold_left step evs (Overview.initial status0 now0).

(** The last cycle of [evs] whose fetches were all fulfilled. *)
Fixpoint last_fulfilled (evs : list Event)
    : option (Overview.Fetched Any * Z) :=
  match evs with
  | [] => None
  | ev :: evs' =>
      match last_fulfilled evs' with
      | Some x => Some x
      | None =>
          match ev with
          | Settled (Resolved d) now => Some (d, now)
          | _ => None
          end
      end
  end.

(** Whether the last event of [evs] that is not a tick is a click on
    Refresh; [true] when there is none, as [useState(true)] has it. *)
Fixpoint awaiting (evs : list Event) : bool :=
  match evs with
  | [] => true
  | ev :: evs' =>
      if forallb (fun e => match e with Tick => true | _ => false end) evs'
      then match ev with
           | Tick => true
           | Refresh => true
           | Settled _ _ => false
           end
      else awaiting evs'
  end.

End Events.

(** One entry of [logs] as the process tables read it. *)
Record ProcessLog := mkProcessLog {
  type : option string;
  process_name : option string;
  memory_percent : option Q;
  cpu_percent : option Q
}.

(** [log.type === 'process']. *)
Definition is_process (log : ProcessLog) : bool :=
  match type log with
  | Some t => String.eqb t "process"
  | None => false
  end.

(** [process.process_name || 'unknown']. *)
Definition name_of (process : ProcessLog) : string :=
  match process_name process with
  | Some n => if Js.truthy_string n then n else "unknown"
  | None => "unknown"
  end.

(** The sign of a difference, which is all the built-in sort reads of
    what a comparator returns. *)
Definition sign (q : Q) : Js.number := Js.Num (Z.sgn (Qnum q)).

(** [processMemoryData]; a row [{ name, memory }] is a pair. *)
Definition processMemoryData (logs : list ProcessLog) : list (string * Q) :=
  sort (fun a b => sign (snd b - snd a)%Q)
       (map (fun process =>
               (name_of process,
                Overview.or_default (memory_percent process) 0%Q))
            (take 7 (List.filter is_process logs))).

(** [processCPUData]; a row [{ name, cpu }] is a pair. *)
Definition processCPUData (logs : list ProcessLog) : list (string * Q) :=
  sort (fun a b => sign (snd b - snd a)%Q)
       (map (fun process =>
               (name_of process,
                Overview.or_default (cpu_percent process) 0%Q))
            (take 7 (List.filter is_process logs))).

End OverviewPage.

(** ** More of the analytics page ([Analytics.tsx]) *)

Module AnalyticsPage.

Definition COLORS : list string :=
  ["#22c55e"; "#3b82f6"; "#ef4444"; "#f59e0b"; "#8b5cf6"; "#ec4899"].

(** [COLORS[index % COLORS.length]], the fill of the cell at [index]. *)
Definition cellColor (index : nat) : option string :=
  COLORS !! (index mod length COLORS).

Definition defaultAnalytics : Analytics.Analytics :=
  Analytics.mkAnalytics [] [] [] [] [] 0 0 0.

(** [analytics || defaultAnalytics]. *)
Definition displayAnalytics (analytics : option Analytics.Analytics)
    : Analytics.Analytics :=
  match analytics with
  | Some a => a
  | None => defaultAnalytics
  end.

(** A point of the performance chart; [cpu[index]] past the end of the
    array is [undefined]. *)
Record Point := mkPoint {
  time : string;
  cpu : option Q;
  memory : option Q
}.

Section Charts.

(** [new Date(timestamp).toLocaleTimeString('en-US', ...)]. *)
Variable toLocaleTimeString : string -> string.

Definition systemPerformanceData (analytics : option Analytics.Analytics)
    : list Point :=
  imap (fun index timestamp =>
          mkPoint (toLocaleTimeString timestamp)
                  (Analytics.cpu (displayAnalytics analytics) !! index)
                  (Analytics.memory (displayAnalytics analytics) !! index))
       (Analytics.timestamps (displayAnalytics analytics)).

End Charts.

End AnalyticsPage.

(** ** More inputs of the examples *)

(** A host for the examples whose dates always parse: the time of a
    timestamp is its length. *)
Definition length_time (timestamp : string) : Js.number :=
  Js.Num (Z.of_nat (String.length timestamp)).

(** Three records with the times 1, 3 and 2. *)
Definition logs_132 : list LogEntry :=
  [mkLog "a" "fw" "" (Some low) None;
   mkLog "aaa" "auth" "" (Some low) None;
   mkLog "aa" "ids" "" (Some low) None].

(** The rows whose severity key is 4. *)
Definition key_is_4 (log : LogEntry) : bool := (severity_key log =? 4)%Z.

(** ** The refresh cycles of the overview page ([Overview.tsx]) *)

Module OverviewCycles.

Section Cycles.

Context {Any : Type}.

(** The page together with what it does not hold itself: the number of
    [loadData] calls suspended at their [await]. *)
Definition Tracked : Type := (Overview.State Any * nat)%type.

(** The effect body: [loadData(); setInterval(loadData, 60000)]. *)
Definition mount (status0 : Any) (now0 : Z) : Tracked :=
  (Overview.initial status0 now0, 1).

(** The timer and [handleRefresh] both call [loadData], which starts its
    fetches without looking at anything; a settled cycle is over. *)
Definition step (t : Tracked) (ev : OverviewPage.Event) : Tracked :=
  match ev with
  | OverviewPage.Tick => (OverviewPage.step (fst t) ev, S (snd t))
  | OverviewPage.Refresh => (OverviewPage.step (fst t) ev, S (snd t))
  | OverviewPage.Settled _ _ => (OverviewPage.step (fst t) ev, pred (snd t))
  end.

Definition run (status0 : Any) (now0 : Z) (evs : list OverviewPage.Event)
    : Tracked :=
  fold_left step evs (mount status0 now0).

End Cycles.

End OverviewCycles.

(** * Properties *)

(** ** Substring search *)

Lemma append_cons (c : Ascii.ascii) (a b : string) :
  String c a +:+ b = String c (a +:+ b).
Proof. reflexivity. Qed.

Lemma append_empty_l (b : string) : EmptyString +:+ b = b.
Proof. reflexivity. Qed.

Lemma prefix_spec (t s : string) :
  Js.prefix t s = true <-> exists b, s = t +:+ b.
Proof.
  revert s. induction t as [|a t IH]; intros s; simpl.
  - split; [intros _; exists s; reflexivity | reflexivity].
  - destruct s as [|b s].
    + split; [discriminate | intros [x Hx]; discriminate].
    + destruct (Ascii.eqb a b) eqn:E.
      * apply Ascii.eqb_eq in E. subst b. rewrite IH.
        split; intros [x Hx]; exists x; rewrite append_cons in *; congruence.
      * apply Ascii.eqb_neq in E.
        split; [discriminate | intros [x Hx]; rewrite append_cons in Hx; congruence].
Qed.

Lemma append_empty_inv (a b : string) :
  a +:+ b = EmptyString -> a = EmptyString /\ b = EmptyString.
Proof. destruct a; [rewrite append_empty_l; tauto | discriminate]. Qed.

(** [s.includes(t)] holds exactly when [s] is [a ++ t ++ b] for some [a]
    and [b]. *)
Lemma includes_spec (s t : string) :
  Js.includes s t = true <-> exists a b, s = a +:+ t +:+ b.
Proof.
  induction s as [|c s IH]; simpl.
  - rewrite prefix_spec. split.
    + intros [b Hb]. symmetry in Hb. apply append_empty_inv in Hb as [-> ->].
      exists EmptyString, EmptyString. reflexivity.
    + intros (a & b & H). symmetry in H.
      apply append_empty_inv in H as [_ H].
      apply append_empty_inv in H as [-> _]. exists EmptyString. reflexivity.
  - rewrite orb_true_iff, IH, prefix_spec. split.
    + intros [[b Hb] | (a & b & H)].
      * exists EmptyString, b. exact Hb.
      * exists (String c a), b. rewrite append_cons. congruence.
    + intros (a & b & H). destruct a as [|c' a].
      * left. exists b. exact H.
      * right. exists a, b. rewrite append_cons in H. congruence.
Qed.

Lemma includes_contains (s t : string) :
  Js.includes s t = true <-> contains s t.
Proof. apply includes_spec. Qed.

Lemma includes_false (s t : string) :
  Js.includes s t = false <-> ~ exists a b, s = a +:+ t +:+ b.
Proof.
  rewrite <- includes_spec. destruct (Js.includes s t); split; done.
Qed.

(** *** Letter case, for ASCII text

    On ASCII text the lower-cased string contains the lower-cased needle
    exactly when the string has a substring that is the needle up to the
    case of its letters. *)

Lemma ascii_toLowerCase_app (a b : string) :
  Js.ascii_toLowerCase (a +:+ b)
  = Js.ascii_toLowerCase a +:+ Js.ascii_toLowerCase b.
Proof.
  induction a as [|c a IH]; [reflexivity|].
  rewrite append_cons. simpl. by rewrite IH.
Qed.

Lemma ascii_toLowerCase_split (s x y : string) :
  Js.ascii_toLowerCase s = x +:+ y ->
  exists a b, s = a +:+ b /\ Js.ascii_toLowerCase a = x
              /\ Js.ascii_toLowerCase b = y.
Proof.
  revert s. induction x as [|c x IH]; intros s H.
  - exists EmptyString, s. by rewrite append_empty_l in H.
  - destruct s as [|c0 s]; [discriminate|].
    rewrite append_cons in H. simpl in H. injection H as Hc Hs.
    destruct (IH s Hs) as (a & b & -> & Ha & Hb).
    exists (String c0 a), b. rewrite append_cons. simpl. by rewrite Hc, Ha.
Qed.

Lemma contains_ignoring_case (s t : string) :
  contains (Js.ascii_toLowerCase s) (Js.ascii_toLowerCase t)
  <-> exists a m b, s = a +:+ m +:+ b
                    /\ Js.ascii_toLowerCase m = Js.ascii_toLowerCase t.
Proof.
  unfold contains. split.
  - intros (x & y & H).
    apply ascii_toLowerCase_split in H as (a & r & -> & _ & Hr).
    apply ascii_toLowerCase_split in Hr as (m & b & -> & Hm & _).
    by exists a, m, b.
  - intros (a & m & b & -> & Hm).
    exists (Js.ascii_toLowerCase a), (Js.ascii_toLowerCase b).
    by rewrite !ascii_toLowerCase_app, Hm.
Qed.

(** ** The built-in sort *)

Section ArraySortFacts.

Context {A : Type} (comparefn : A -> A -> Js.number).

Lemma insert_sorted_perm (x : A) (l : list A) :
  insert_sorted comparefn x l ≡ₚ x :: l.
Proof.
  induction l as [|y l IH]; simpl; [done|].
  destruct (0 <? sortCompare comparefn x y)%Z; [|done].
  rewrite IH. apply Permutation_swap.
Qed.

(** Whatever the comparator, sorting rearranges and nothing else. *)
Lemma sort_perm (l : list A) : sort comparefn l ≡ₚ l.
Proof.
  induction l as [|x l IH]; simpl; [done|].
  rewrite insert_sorted_perm. by rewrite IH.
Qed.

Lemma sort_singleton (x : A) : sort comparefn [x] = [x].
Proof. reflexivity. Qed.

(** A comparator that orders by a key is consistent: the relation is
    total and transitive. *)
Hypothesis in_order_total :
  forall x y, (0 < sortCompare comparefn x y)%Z -> in_order comparefn y x.
Hypothesis in_order_trans :
  forall x y z,
    in_order comparefn x y -> in_order comparefn y z -> in_order comparefn x z.

Lemma insert_sorted_sorted (x : A) (l : list A) :
  StronglySorted (in_order comparefn) l ->
  StronglySorted (in_order comparefn) (insert_sorted comparefn x l).
Proof.
  induction 1 as [|y l Hl IH Hy]; simpl.
  - repeat constructor.
  - destruct (0 <? sortCompare comparefn x y)%Z eqn:E.
    + apply Z.ltb_lt in E. constructor; [exact IH|].
      rewrite insert_sorted_perm. constructor; [|exact Hy].
      by apply in_order_total.
    + apply Z.ltb_ge in E. constructor; [by constructor|].
      constructor; [exact E|].
      eapply Forall_impl; [exact Hy|]. intros z Hz. by eapply in_order_trans.
Qed.

Lemma sort_sorted (l : list A) :
  StronglySorted (in_order comparefn) (sort comparefn l).
Proof.
  induction l as [|x l IH]; simpl; [constructor|].
  by apply insert_sorted_sorted.
Qed.

End ArraySortFacts.

Lemma all_before_sorted {A : Type} (R : A -> A -> Prop) (p q : A -> bool)
    (l : list A) :
  (forall x y, R x y -> q x = true -> p y = false) ->
  StronglySorted R l -> all_before p q l = true.
Proof.
  intros HR. induction 1 as [|x l Hl IH Hx]; simpl; [done|].
  rewrite IH, andb_true_r. destruct (q x) eqn:Hq; simpl; [|done].
  apply forallb_forall. intros y Hy. apply negb_true_iff.
  rewrite Forall_forall in Hx. apply (HR x y); [|done].
  apply Hx. by apply list_elem_of_In.
Qed.

(** ** The query pipeline *)

Lemma filter_sublist {A : Type} (f : A -> bool) (l : list A) :
  sublist (List.filter f l) l.
Proof.
  induction l as [|x l IH]; simpl; [constructor|].
  destruct (f x); by constructor.
Qed.

Lemma sublist_count_occ (l1 l2 : list LogEntry) (r : LogEntry) :
  sublist l1 l2 ->
  count_occ LogEntry_eq_dec l1 r <= count_occ LogEntry_eq_dec l2 r.
Proof.
  induction 1 as [|x l1 l2 _ IH|x l1 l2 _ IH]; simpl; [done| |];
    destruct (LogEntry_eq_dec x r); lia.
Qed.

Lemma view_sorts_filtered toLowerCase getTime localeCompare
    logs filter field dir sel :
  processedLogs toLowerCase getTime localeCompare logs filter field dir sel
  = sort (comparator getTime localeCompare field dir)
         (filtered toLowerCase logs filter sel).
Proof. reflexivity. Qed.

Section FilterFacts.

Variable toLowerCase : string -> string.

Lemma filtered_sublist logs filter sel :
  sublist (filtered toLowerCase logs filter sel) logs.
Proof.
  unfold filtered.
  assert (sublist (if Js.truthy_string filter
                   then List.filter (matchesFilter toLowerCase filter) logs
                   else logs) logs) as H1.
  { destruct (Js.truthy_string filter); [apply filter_sublist | done]. }
  destruct sel as [sel|]; [|done].
  destruct (Js.truthy_string sel); [|done].
  etrans; [apply filter_sublist | done].
Qed.

Lemma matchesFilter_spec filter log :
  filter <> EmptyString ->
  matchesFilter toLowerCase filter log = true
  <-> text_filter toLowerCase filter log.
Proof.
  intros Hne. unfold matchesFilter, text_filter, matches_ci, contains.
  rewrite !orb_true_iff, !includes_spec. split.
  - intros [[H | H] | H]; [right; left; done | right; right; left; done |].
    right; right; right. destruct (type log) as [t|]; [|done].
    apply andb_true_iff in H as [Ht H]. apply includes_spec in H.
    exists t. split; [done|]. split; [|done]. by destruct t.
  - intros [H | [H | [H | (t & Ht & Hnt & H)]]]; [done | by left; left | by left; right |].
    right. rewrite Ht. apply andb_true_iff. split; [by destruct t|].
    by apply includes_spec.
Qed.

Lemma matchesSeverity_spec sel log :
  matchesSeverity sel log = true
  <-> exists s, severity log = Some s /\ severity_name s = sel.
Proof.
  unfold matchesSeverity. destruct (severity log) as [s|].
  - rewrite String.eqb_eq. split; [intros H; by exists s | by intros (s' & [= <-] & H')].
  - split; [done | intros (s & H & _); done].
Qed.

Lemma elem_of_filtered logs filter sel r :
  r ∈ filtered toLowerCase logs filter sel
  <-> r ∈ logs /\ text_filter toLowerCase filter r /\ severity_filter sel r.
Proof.
  unfold filtered.
  assert (forall r, r ∈ (if Js.truthy_string filter
                   then List.filter (matchesFilter toLowerCase filter) logs
                   else logs) <-> r ∈ logs /\ text_filter toLowerCase filter r) as H1.
  { intros x. destruct filter as [|c f]; simpl.
    - unfold text_filter. split; [intros; split; [done | by left] | by intros [? _]].
    - rewrite list_elem_of_In, filter_In, <- list_elem_of_In.
      by rewrite matchesFilter_spec. }
  destruct sel as [sel|]; simpl; [|rewrite H1; tauto].
  destruct sel as [|c sel']; simpl; [rewrite H1; tauto|].
  rewrite list_elem_of_In, filter_In, <- list_elem_of_In, H1, matchesSeverity_spec.
  split; [intros [[? ?] ?]; auto | intros (? & ? & [? | ?]); done].
Qed.

End FilterFacts.

(** *** Sorting by severity *)

Section SeveritySort.

Variable getTime : string -> Js.number.
Variable localeCompare : string -> string -> Z.

Lemma sortCompare_severity_asc (a b : LogEntry) :
  sortCompare (comparator getTime localeCompare by_severity asc) a b
  = (severity_key a - severity_key b)%Z.
Proof. reflexivity. Qed.

Lemma sortCompare_severity_desc (a b : LogEntry) :
  sortCompare (comparator getTime localeCompare by_severity desc) a b
  = (- (severity_key a - severity_key b))%Z.
Proof. reflexivity. Qed.

Lemma severity_key_none (log : LogEntry) :
  no_severity log = true -> severity_key log = 4%Z.
Proof.
  unfold no_severity, known_severity, severity_key.
  by destruct (severity log).
Qed.

Lemma severity_key_below_critical (log : LogEntry) :
  below_critical log = true <-> (severity_key log < 4)%Z.
Proof.
  unfold below_critical, severity_key.
  destruct (severity log) as [[]|]; simpl; split; (done || lia).
Qed.

(** The severity comparator is consistent, so its output is sorted by
    [severity_key], upwards or downwards. *)
Lemma severity_sorted (dir : SortDirection) (l : list LogEntry) :
  StronglySorted (in_order (comparator getTime localeCompare by_severity dir))
                 (sort (comparator getTime localeCompare by_severity dir) l).
Proof.
  apply sort_sorted; unfold in_order; intros x y; destruct dir;
    rewrite ?sortCompare_severity_asc, ?sortCompare_severity_desc;
    try lia; intros z; rewrite ?sortCompare_severity_asc, ?sortCompare_severity_desc;
    lia.
Qed.

End SeveritySort.

(** ** The claims about the query pipeline *)

(** C2.  The severity comparator does not order critical before high.
    The table [severityOrder] does (0 before 1), but the key of a critical
    record is [0 || 4], that is 4, the key of a record without severity.
    For every critical [a] and high [b] the ascending comparator returns
    3, the ascending view of [[a; b]] is [[b; a]], and the descending one
    is mirrored. *)
Theorem critical_sorts_after_high toLowerCase getTime localeCompare
    (a b : LogEntry) :
  severity a = Some critical ->
  severity b = Some high ->
  (severityOrder (severity a) < severityOrder (severity b))%Z
  /\ severity_key a = 4%Z
  /\ severity_key b = 1%Z
  /\ comparator getTime localeCompare by_severity asc a b = Js.Num 3
  /\ comparator getTime localeCompare by_severity desc a b = Js.Num (-3)
  /\ processedLogs toLowerCase getTime localeCompare [a; b] "" by_severity asc None
     = [b; a]
  /\ processedLogs toLowerCase getTime localeCompare [b; a] "" by_severity desc None
     = [a; b].
Proof.
  intros Ha Hb.
  unfold processedLogs, comparator, comparison, severity_key; simpl.
  unfold sortCompare, comparator, comparison. rewrite Ha, Hb. simpl. done.
Qed.

Lemma critical_sorts_after_high_witness :
  severity log_critical = Some critical /\ severity log_high = Some high
  /\ processedLogs Js.ascii_toLowerCase no_time Js.ascii_compare
       [log_critical; log_high] "" by_severity asc None
     = [log_high; log_critical].
Proof.
  split; [reflexivity|]. split; [reflexivity|].
  apply (critical_sorts_after_high Js.ascii_toLowerCase no_time
           Js.ascii_compare log_critical log_high eq_refl eq_refl).
Defined.

(** The comparator on rows that the page never holds.  Were a record
    without severity to reach the sort, it would stand after every record
    whose severity is high, medium or low in ascending direction, and
    before them in descending direction. *)
Lemma unknown_severity_mirrored toLowerCase getTime localeCompare
    (logs : list LogEntry) (filter : string) (sel : option string) :
  all_before below_critical no_severity
    (processedLogs toLowerCase getTime localeCompare logs filter by_severity asc sel)
  = true
  /\ all_before no_severity below_critical
    (processedLogs toLowerCase getTime localeCompare logs filter by_severity desc sel)
  = true.
Proof.
  rewrite !view_sorts_filtered. split.
  - eapply all_before_sorted; [|apply severity_sorted].
    unfold in_order. intros x y. rewrite sortCompare_severity_asc.
    intros Hxy Hx%severity_key_none.
    destruct (below_critical y) eqn:Hy; [|done].
    apply severity_key_below_critical in Hy. lia.
  - eapply all_before_sorted; [|apply severity_sorted].
    unfold in_order. intros x y. rewrite sortCompare_severity_desc.
    intros Hxy Hx%severity_key_below_critical.
    destruct (no_severity y) eqn:Hy; [|done].
    apply severity_key_none in Hy. lia.
Qed.

(** C7.  A record is in the view exactly when it is in the input and
    passes both filters, the free-text match (source, content or type,
    case-insensitive) and the severity selector; on the two records of the
    example, raw or classified, the text "ids" keeps exactly the first and
    the severity "low" exactly the second. *)
Theorem filters_compose_as_and :
  (forall toLowerCase getTime localeCompare logs filter field dir sel r,
     r ∈ processedLogs toLowerCase getTime localeCompare logs filter field dir sel
     <-> r ∈ logs /\ text_filter toLowerCase filter r /\ severity_filter sel r)
  /\ (forall getTime localeCompare field dir t1 t2,
        processedLogs Js.ascii_toLowerCase getTime localeCompare
          (example_logs t1 t2) "ids" field dir None
        = [mkLog t1 "idsA" "" (Some critical) None]
        /\ processedLogs Js.ascii_toLowerCase getTime localeCompare
             (example_logs t1 t2) "" field dir (Some "low")
           = [mkLog t2 "auth1" "" (Some low) None]
        /\ processedLogs Js.ascii_toLowerCase getTime localeCompare
             (enhancedLogs Js.ascii_toLowerCase (example_logs t1 t2))
             "ids" field dir None
           = [mkLog t1 "idsA" "" (Some critical) (Some "intrusion")]
        /\ processedLogs Js.ascii_toLowerCase getTime localeCompare
             (enhancedLogs Js.ascii_toLowerCase (example_logs t1 t2))
             "" field dir (Some "low")
           = [mkLog t2 "auth1" "" (Some low) (Some "authentication")]).
Proof.
  split.
  - intros. rewrite view_sorts_filtered, sort_perm. apply elem_of_filtered.
  - intros. repeat split; reflexivity.
Qed.

(** C10.  The view is a permutation of a sublist of the input: no record
    is invented or duplicated, and the view is not longer than the input. *)
Theorem view_permutes_sublist toLowerCase getTime localeCompare
    (logs : list LogEntry) (filter : string) (field : SortField)
    (dir : SortDirection) (sel : option string) :
  let view :=
    processedLogs toLowerCase getTime localeCompare logs filter field dir sel in
  (exists kept, sublist kept logs /\ view ≡ₚ kept)
  /\ (forall r, r ∈ view -> r ∈ logs)
  /\ (forall r, count_occ LogEntry_eq_dec view r <= count_occ LogEntry_eq_dec logs r)
  /\ length view <= length logs.
Proof.
  intros view. subst view. rewrite view_sorts_filtered.
  pose proof (filtered_sublist toLowerCase logs filter sel) as Hsub.
  pose proof (sort_perm (comparator getTime localeCompare field dir)
                (filtered toLowerCase logs filter sel)) as Hperm.
  split; [eexists; split; [exact Hsub | exact Hperm]|].
  split; [|split].
  - intros r Hr. rewrite Hperm in Hr. by eapply elem_of_sublist.
  - intros r. rewrite (Permutation_count_occ LogEntry_eq_dec) in Hperm.
    rewrite Hperm. by apply sublist_count_occ.
  - rewrite Hperm. by apply sublist_length.
Qed.

(** ** The classifier *)

(** Case analysis on every keyword test in the goal. *)
Ltac case_includes :=
  repeat match goal with
         | |- context [Js.includes ?s ?t] => destruct (Js.includes s t)
         end; simpl.

Lemma includes_not_contains (s t : string) :
  Js.includes s t = false <-> ~ contains s t.
Proof. apply includes_false. Qed.

(** Turn the outcome of every keyword test into the fact it stands for. *)
Ltac keyword_facts :=
  repeat match goal with
         | H : Js.includes _ _ = true |- _ => apply includes_contains in H
         | H : Js.includes _ _ = false |- _ => apply includes_not_contains in H
         end.

Section ClassifierFacts.

Variable toLowerCase : string -> string.

Lemma classify_type_severity (log : LogEntry) :
  severity (classify_type log) = severity log.
Proof.
  unfold classify_type. destruct (Js.truthy (type log)); [reflexivity|].
  case_includes; reflexivity.
Qed.

Lemma classify_type_source (log : LogEntry) :
  source (classify_type log) = source log.
Proof.
  unfold classify_type. destruct (Js.truthy (type log)); [reflexivity|].
  case_includes; reflexivity.
Qed.

Lemma classify_type_truthy (log : LogEntry) :
  Js.truthy (type (classify_type log)) = true.
Proof.
  unfold classify_type. destruct (Js.truthy (type log)) eqn:E; [exact E|].
  case_includes; reflexivity.
Qed.

Lemma classify_type_set (log : LogEntry) :
  Js.truthy (type log) = true -> classify_type log = log.
Proof. unfold classify_type. by intros ->. Qed.

Lemma classify_severity_type (log : LogEntry) :
  type (classify_severity toLowerCase log) = type log.
Proof.
  unfold classify_severity. destruct (severity log); [reflexivity|].
  case_includes; reflexivity.
Qed.

Lemma classify_severity_source (log : LogEntry) :
  source (classify_severity toLowerCase log) = source log.
Proof.
  unfold classify_severity. destruct (severity log); [reflexivity|].
  case_includes; reflexivity.
Qed.

Lemma classify_severity_known (log : LogEntry) :
  known_severity (classify_severity toLowerCase log) = true.
Proof.
  unfold classify_severity, known_severity.
  destruct (severity log) eqn:E; [by rewrite E|].
  case_includes; reflexivity.
Qed.

Lemma classify_severity_set (log : LogEntry) :
  known_severity log = true -> classify_severity toLowerCase log = log.
Proof.
  unfold classify_severity, known_severity. by destruct (severity log).
Qed.

(** The severity the rules give to a record without one. *)
Lemma classify_severity_rule (log : LogEntry) (s : Severity) :
  severity log = None ->
  severity (classify_severity toLowerCase log) = Some s
  <-> severity_rule (toLowerCase (content log)) s.
Proof.
  intros Hnone. unfold classify_severity. rewrite Hnone.
  destruct (Js.includes (toLowerCase (content log)) "critical") eqn:Hc;
  destruct (Js.includes (toLowerCase (content log)) "alert") eqn:Ha;
  destruct (Js.includes (toLowerCase (content log)) "warning") eqn:Hw;
  destruct (Js.includes (toLowerCase (content log)) "notice") eqn:Hn;
  keyword_facts;
  destruct s; simpl; split; intros H;
  try discriminate H; try reflexivity; tauto.
Qed.

(** The type the rules give to a record without one. *)
Lemma classify_type_rule (log : LogEntry) (t : string) :
  Js.truthy (type log) = false ->
  type (classify_type log) = Some t <-> type_rule (source log) t.
Proof.
  intros Hnone. unfold classify_type, type_rule. rewrite Hnone.
  destruct (Js.includes (source log) "ids") eqn:Hi;
  destruct (Js.includes (source log) "snort") eqn:Hs;
  destruct (Js.includes (source log) "auth") eqn:Ha;
  destruct (Js.includes (source log) "fw") eqn:Hf;
  destruct (Js.includes (source log) "firewall") eqn:Hw;
  keyword_facts;
  simpl;
  (split;
   [ intros [= <-]; tauto
   | intros [[-> H] | [[-> H] | [[-> H] | [-> H]]]]; try reflexivity; tauto ]).
Qed.

End ClassifierFacts.

(** ** The claims about the classifier *)

(** C4.  A record without severity gets one, chosen by the first keyword
    that the lower-cased content contains: "critical" gives critical; else
    "alert" or "warning" gives high; else "notice" gives medium; else low.
    The classifier changes no other field than severity and type. *)
Theorem severity_by_keyword toLowerCase (log : LogEntry) :
  severity log = None ->
  (exists s, severity (classify toLowerCase log) = Some s)
  /\ (forall s, severity (classify toLowerCase log) = Some s
                <-> severity_rule (toLowerCase (content log)) s)
  /\ timestamp (classify toLowerCase log) = timestamp log
  /\ source (classify toLowerCase log) = source log
  /\ content (classify toLowerCase log) = content log.
Proof.
  intros Hnone. unfold classify. rewrite classify_type_severity.
  split; [|split].
  - pose proof (classify_severity_known toLowerCase log) as H.
    unfold known_severity in H.
    destruct (severity (classify_severity toLowerCase log)) as [s|]; [|done].
    by exists s.
  - intros s. by apply classify_severity_rule.
  - unfold classify_type, classify_severity. rewrite Hnone.
    destruct (Js.truthy _); case_includes; done.
Qed.

Lemma severity_by_keyword_witness :
  severity log_warning = None
  /\ severity (classify Js.ascii_toLowerCase log_warning) = Some high
  /\ severity_rule (Js.ascii_toLowerCase (content log_warning)) high.
Proof.
  split; [reflexivity|]. split; [reflexivity|].
  apply (proj1 (proj2
    (severity_by_keyword Js.ascii_toLowerCase log_warning eq_refl))).
  reflexivity.
Defined.

(** C5.  A record without type gets one, chosen by the first substring
    that the source contains: "ids" or "snort" gives intrusion; else "auth"
    gives authentication; else "fw" or "firewall" gives firewall; else
    system. *)
Theorem type_by_source toLowerCase (log : LogEntry) :
  type log = None ->
  (exists t, type (classify toLowerCase log) = Some t)
  /\ (forall t, type (classify toLowerCase log) = Some t
                <-> type_rule (source log) t).
Proof.
  intros Hnone. unfold classify.
  assert (Js.truthy (type (classify_severity toLowerCase log)) = false) as Hf.
  { by rewrite classify_severity_type, Hnone. }
  split.
  - pose proof (classify_type_truthy (classify_severity toLowerCase log)) as H.
    destruct (type (classify_type (classify_severity toLowerCase log))) as [t|];
      [by exists t | done].
  - intros t. rewrite classify_type_rule by done.
    by rewrite classify_severity_source.
Qed.

Lemma type_by_source_witness :
  type log_auth = None
  /\ type (classify Js.ascii_toLowerCase log_auth) = Some "authentication"
  /\ type_rule (source log_auth) "authentication".
Proof.
  split; [reflexivity|]. split; [reflexivity|].
  apply (proj2 (type_by_source Js.ascii_toLowerCase log_auth eq_refl)).
  reflexivity.
Defined.

(** C6, as the code has it.  Classifying twice is classifying once; a
    severity that is set is kept; a type that is set to a non-empty string
    is kept; a record with both is returned as it is. *)
Theorem classify_idempotent toLowerCase (log : LogEntry) :
  classify toLowerCase (classify toLowerCase log) = classify toLowerCase log
  /\ (forall s, severity log = Some s ->
                severity (classify toLowerCase log) = Some s)
  /\ (forall t, type log = Some t -> t <> EmptyString ->
                type (classify toLowerCase log) = Some t)
  /\ (forall s t, severity log = Some s -> type log = Some t ->
                  t <> EmptyString -> classify toLowerCase log = log).
Proof.
  assert (forall t, type log = Some t -> t <> EmptyString ->
                    Js.truthy (type log) = true) as Htruthy.
  { intros t -> Ht. by destruct t. }
  assert (forall s, severity log = Some s ->
                    classify_severity toLowerCase log = log) as Hsev.
  { intros s Hs. apply classify_severity_set. unfold known_severity. by rewrite Hs. }
  split; [|split; [|split]].
  - unfold classify at 1.
    rewrite (classify_severity_set toLowerCase (classify toLowerCase log)).
    + apply classify_type_set. unfold classify. apply classify_type_truthy.
    + unfold classify, known_severity. rewrite classify_type_severity.
      apply classify_severity_known.
  - intros s Hs. unfold classify. by rewrite classify_type_severity, (Hsev s).
  - intros t Ht Hne. unfold classify.
    rewrite classify_type_set; rewrite classify_severity_type; eauto.
  - intros s t Hs Ht Hne. unfold classify. rewrite (Hsev s Hs).
    apply classify_type_set. eauto.
Qed.

Lemma classify_idempotent_witness :
  classify Js.ascii_toLowerCase log_classified = log_classified
  /\ classify Js.ascii_toLowerCase (classify Js.ascii_toLowerCase log_raw)
     = classify Js.ascii_toLowerCase log_raw.
Proof.
  split.
  - apply (proj2 (proj2 (proj2
      (classify_idempotent Js.ascii_toLowerCase log_classified))) low "audit");
      [reflexivity | reflexivity | discriminate].
  - apply (proj1 (classify_idempotent Js.ascii_toLowerCase log_raw)).
Defined.

(** C6, as the specification has it, fails on a type that is set to the
    empty string: the classifier replaces it. *)
Lemma classify_overwrites_empty_type :
  type log_empty_type = Some ""
  /\ type (classify Js.ascii_toLowerCase log_empty_type) = Some "system"
  /\ type (classify Js.ascii_toLowerCase log_empty_type) <> type log_empty_type.
Proof. split; [reflexivity|]. split; [reflexivity | discriminate]. Qed.

(** ** Refresh cycles *)

(** A cell that one event of a run writes and the others leave alone ends
    with what that event wrote, wherever the event stands in the run. *)
Lemma fold_single_writer {S E V : Type} (step : S -> E -> S) (proj : S -> V)
    (upd : E -> V -> V) :
  (forall st e, proj (step st e) = upd e (proj st)) ->
  forall (order : list E) (e0 : E) (rest : list E),
    order ≡ₚ e0 :: rest ->
    (forall e, e ∈ rest -> forall v, upd e v = v) ->
    forall st, proj (fold_left step order st) = upd e0 (proj st).
Proof.
  intros Hstep.
  assert (forall l, (forall e, e ∈ l -> forall v, upd e v = v) ->
                    forall st, proj (fold_left step l st) = proj st) as Hid.
  { induction l as [|e l IH]; intros Hl st; simpl; [done|].
    rewrite IH, Hstep; [apply Hl; left | intros; apply Hl; by right]. }
  intros order e0 rest Hperm Hrest st.
  assert (e0 ∈ order) as Hin by (rewrite Hperm; left).
  apply list_elem_of_split in Hin as (l1 & l2 & ->).
  rewrite <- Permutation_middle in Hperm. apply Permutation_cons_inv in Hperm.
  assert (forall e, e ∈ l1 ++ l2 -> forall v, upd e v = v) as Hall.
  { intros e He. apply Hrest. by rewrite <- Hperm. }
  rewrite fold_left_app. simpl. rewrite Hid, Hstep, Hid; [done| |].
  - intros e He. apply Hall, elem_of_app. by left.
  - intros e He. apply Hall, elem_of_app. by right.
Qed.

Section AnalyticsFacts.

Context {Alert Network Metric : Type}.

Implicit Types st : Analytics.State Alert Network Metric.

(** The console after a run holds the earlier lines and one line for each
    fetch of the run that was rejected. *)
Lemma console_after_settles (order : list Analytics.Settle) st (msg : string) :
  msg ∈ Analytics.console (fold_left Analytics.settle order st)
  <-> msg ∈ Analytics.console st
      \/ exists ev, ev ∈ order /\ Analytics.error_line ev = Some msg.
Proof.
  revert st. induction order as [|ev order IH]; intros st; simpl.
  - split; [by left | intros [H | (ev & H & _)]; [done | by apply elem_of_nil in H]].
  - rewrite IH. split.
    + intros [H | (ev' & Hin & Hev')].
      * destruct ev as [[d|e] now | [d|e] | [d|e] | [d|e]]; simpl in H;
          try (by left);
          apply elem_of_app in H as [H | H%list_elem_of_singleton];
          try (by left); right; eexists; (split; [by left|]); by subst msg.
      * right. exists ev'. split; [by right | done].
    + intros [H | (ev' & Hin & Hev')].
      * left. destruct ev as [[d|e] now | [d|e] | [d|e] | [d|e]]; simpl;
          try done; apply elem_of_app; by left.
      * apply elem_of_cons in Hin as [-> | Hin].
        -- left. destruct ev as [[d|e] now | [d|e] | [d|e] | [d|e]];
             simpl in *; try discriminate; injection Hev' as <-;
             apply elem_of_app; right; by apply list_elem_of_singleton.
        -- right. by exists ev'.
Qed.

Lemma outstanding_after_settles (order : list Analytics.Settle) st :
  Analytics.outstanding (fold_left Analytics.settle order st)
  = Analytics.outstanding st - length order.
Proof.
  revert st. induction order as [|ev order IH]; intros st; simpl; [lia|].
  rewrite IH. destruct ev as [[d|e] now | [d|e] | [d|e] | [d|e]]; simpl; lia.
Qed.

End AnalyticsFacts.

(** The console after a run is the console before it followed by the
    lines of the rejected fetches of the run, one line each, in the order
    in which they settled. *)
Lemma console_appends_error_lines {Alert Network Metric : Type}
    (order : list Analytics.Settle)
    (st : Analytics.State Alert Network Metric) :
  Analytics.console (fold_left Analytics.settle order st)
  = Analytics.console st ++ omap Analytics.error_line order.
Proof.
  revert st. induction order as [|ev order IH]; intros st.
  - by rewrite app_nil_r.
  - cbn [fold_left]. rewrite IH.
    destruct ev as [[d|e] now | [d|e] | [d|e] | [d|e]]; cbn;
      by rewrite <- ?app_assoc.
Qed.

(** ** The claims about refreshing *)

(** C1, as the code has it.  In the analytics view every fetch has its
    own callbacks: whatever the order in which the four fetches of a cycle
    settle, a cell is overwritten exactly when its own fetch was
    fulfilled, a cell whose fetch was rejected keeps what it held, and the
    console gets exactly one new line for each rejected fetch, naming it,
    and no other: the console after the cycle is the console before it
    followed by these lines in the order in which the fetches settled.  In
    the logs view the three fetches are awaited together: when one is
    rejected every cell keeps what it held and the console gets one line;
    when all are fulfilled every cell is overwritten.  No cell records the
    error. *)
Theorem failed_fetch_isolation :
  (forall (Alert Network Metric : Type)
          (st : Analytics.State Alert Network Metric)
          ra now rb rc rd (order : list Analytics.Settle),
     order ≡ₚ Analytics.issued ra now rb rc rd ->
     Analytics.analytics (Analytics.cycle order st)
     = match ra with
       | Resolved d => Some d
       | Rejected _ => Analytics.analytics st
       end
     /\ Analytics.alertsData (Analytics.cycle order st)
        = match rb with Resolved d => d | Rejected _ => Analytics.alertsData st end
     /\ Analytics.networkData (Analytics.cycle order st)
        = match rc with Resolved d => d | Rejected _ => Analytics.networkData st end
     /\ Analytics.metricsData (Analytics.cycle order st)
        = match rd with Resolved d => d | Rejected _ => Analytics.metricsData st end
     /\ (forall msg,
           msg ∈ Analytics.console (Analytics.cycle order st)
           <-> msg ∈ Analytics.console st
               \/ (failed ra = true /\ msg = "Error fetching analytics:")
               \/ (failed rb = true /\ msg = "Error fetching alerts:")
               \/ (failed rc = true /\ msg = "Error fetching network data:")
               \/ (failed rd = true /\ msg = "Error fetching metrics:"))
     /\ Analytics.console (Analytics.cycle order st)
        = Analytics.console st ++ omap Analytics.error_line order
     /\ omap Analytics.error_line order
        ≡ₚ (if failed ra then ["Error fetching analytics:"] else [])
           ++ (if failed rb then ["Error fetching alerts:"] else [])
           ++ (if failed rc then ["Error fetching network data:"] else [])
           ++ (if failed rd then ["Error fetching metrics:"] else []))
  /\ (forall toLowerCase (st : SystemLogs.State) rl ra rt,
        (failed rl || failed ra || failed rt = true ->
         SystemLogs.logs (SystemLogs.loadData_resume toLowerCase rl ra rt st)
         = SystemLogs.logs st
         /\ SystemLogs.alertSummary (SystemLogs.loadData_resume toLowerCase rl ra rt st)
            = SystemLogs.alertSummary st
         /\ SystemLogs.threatSummary (SystemLogs.loadData_resume toLowerCase rl ra rt st)
            = SystemLogs.threatSummary st
         /\ SystemLogs.console (SystemLogs.loadData_resume toLowerCase rl ra rt st)
            = SystemLogs.console st ++ ["Error loading system logs data:"])
        /\ (forall l a t,
              rl = Resolved l -> ra = Resolved a -> rt = Resolved t ->
              SystemLogs.logs (SystemLogs.loadData_resume toLowerCase rl ra rt st)
              = enhancedLogs toLowerCase l
              /\ SystemLogs.alertSummary (SystemLogs.loadData_resume toLowerCase rl ra rt st)
                 = Some a
              /\ SystemLogs.threatSummary (SystemLogs.loadData_resume toLowerCase rl ra rt st)
                 = Some t
              /\ SystemLogs.console (SystemLogs.loadData_resume toLowerCase rl ra rt st)
                 = SystemLogs.console st)).
Proof.
  split.
  - intros Alert Network Metric st ra now rb rc rd order Hperm.
    unfold Analytics.cycle. repeat split.
    + rewrite (fold_single_writer Analytics.settle Analytics.analytics
                 (fun ev v => match ev with
                              | Analytics.AnalyticsSettled (Resolved d) _ => Some d
                              | _ => v
                              end)
                 ltac:(by intros ? [[?|?] ?|[?|?]|[?|?]|[?|?]])
                 order _ _ Hperm).
      * by destruct ra.
      * intros e He v. by repeat (apply elem_of_cons in He as [-> | He]; [done|]);
          apply elem_of_nil in He.
    + rewrite (fold_single_writer Analytics.settle Analytics.alertsData
                 (fun ev v => match ev with
                              | Analytics.AlertsSettled (Resolved d) => d
                              | _ => v
                              end)
                 ltac:(by intros ? [[?|?] ?|[?|?]|[?|?]|[?|?]])
                 order (Analytics.AlertsSettled rb)
                 [Analytics.AnalyticsSettled ra now; Analytics.NetworkSettled rc;
                  Analytics.MetricsSettled rd]).
      * by destruct rb.
      * rewrite Hperm. apply Permutation_swap.
      * intros e He v. by repeat (apply elem_of_cons in He as [-> | He];
          [by destruct ra|]); apply elem_of_nil in He.
    + rewrite (fold_single_writer Analytics.settle Analytics.networkData
                 (fun ev v => match ev with
                              | Analytics.NetworkSettled (Resolved d) => d
                              | _ => v
                              end)
                 ltac:(by intros ? [[?|?] ?|[?|?]|[?|?]|[?|?]])
                 order (Analytics.NetworkSettled rc)
                 [Analytics.AnalyticsSettled ra now; Analytics.AlertsSettled rb;
                  Analytics.MetricsSettled rd]).
      * by destruct rc.
      * rewrite Hperm. symmetry.
        by apply (Permutation_cons_app [_; _] [_]).
      * intros e He v. by repeat (apply elem_of_cons in He as [-> | He];
          [by destruct ra|]); apply elem_of_nil in He.
    + rewrite (fold_single_writer Analytics.settle Analytics.metricsData
                 (fun ev v => match ev with
                              | Analytics.MetricsSettled (Resolved d) => d
                              | _ => v
                              end)
                 ltac:(by intros ? [[?|?] ?|[?|?]|[?|?]|[?|?]])
                 order (Analytics.MetricsSettled rd)
                 [Analytics.AnalyticsSettled ra now; Analytics.AlertsSettled rb;
                  Analytics.NetworkSettled rc]).
      * by destruct rd.
      * rewrite Hperm. symmetry.
        by apply (Permutation_cons_app [_; _; _] []).
      * intros e He v. by repeat (apply elem_of_cons in He as [-> | He];
          [by destruct ra|]); apply elem_of_nil in He.
    + rewrite console_after_settles. intros [H | (ev & Hin & Hev)]; [by left|].
      rewrite Hperm in Hin. right.
      repeat (apply elem_of_cons in Hin as [-> | Hin]);
        [destruct ra | destruct rb | destruct rc | destruct rd
        | by apply elem_of_nil in Hin];
        simpl in Hev; try discriminate; injection Hev as <-; tauto.
    + rewrite console_after_settles.
      intros [H | H]; [by left|]. right.
      destruct H as [[Hf ->] | [[Hf ->] | [[Hf ->] | [Hf ->]]]].
      * exists (Analytics.AnalyticsSettled ra now). rewrite Hperm.
        split; [by left | by destruct ra].
      * exists (Analytics.AlertsSettled rb). rewrite Hperm.
        split; [by right; left | by destruct rb].
      * exists (Analytics.NetworkSettled rc). rewrite Hperm.
        split; [by right; right; left | by destruct rc].
      * exists (Analytics.MetricsSettled rd). rewrite Hperm.
        split; [by right; right; right; left | by destruct rd].
    + by rewrite console_appends_error_lines.
    + rewrite Hperm. by destruct ra, rb, rc, rd.
  - intros toLowerCase st rl ra rt. unfold SystemLogs.loadData_resume. split.
    + intros Hf. destruct rl, ra, rt; simpl in *; done.
    + by intros l a t -> -> ->.
Qed.

Lemma failed_fetch_isolation_witness :
  settled0 ≡ₚ issued0
  /\ Analytics.alertsData (Analytics.cycle settled0 (Analytics.initial 0)) = []
  /\ Analytics.metricsData (Analytics.cycle settled0 (Analytics.initial 0)) = [7]
  /\ Analytics.networkData (Analytics.cycle settled0 (Analytics.initial 0)) = [1; 2]
  /\ Analytics.analytics (Analytics.cycle settled0 (Analytics.initial 0))
     = Some analytics0
  /\ Analytics.console (Analytics.cycle settled0 (Analytics.initial 0))
     = ["Error fetching alerts:"].
Proof.
  assert (settled0 ≡ₚ issued0) as Hperm.
  { unfold settled0, issued0, Analytics.issued.
    apply (Permutation_cons_app [_; _; _] []). apply perm_swap. }
  split; [exact Hperm|].
  destruct (proj1 failed_fetch_isolation nat nat nat (Analytics.initial 0)
              (Resolved analytics0) 60%Z (Rejected "timeout") (Resolved [1; 2])
              (Resolved [7]) settled0 Hperm)
    as (Ha & Hb & Hc & Hd & _ & Hconsole & _).
  split; [exact Hb|]. split; [exact Hd|]. split; [exact Hc|].
  split; [exact Ha | exact Hconsole].
Defined.

(** C1, as the specification has it, fails in the logs view: the logs
    fetch is rejected, the two summaries are fulfilled, and the summaries
    are dropped. *)
Lemma logs_view_drops_fulfilled_fetches :
  SystemLogs.alertSummary (SystemLogs.run Js.ascii_toLowerCase [logs_cycle0])
  = None
  /\ SystemLogs.threatSummary (SystemLogs.run Js.ascii_toLowerCase [logs_cycle0])
     = None
  /\ SystemLogs.alertSummary (SystemLogs.run Js.ascii_toLowerCase [logs_cycle0])
     <> Some alerts0.
Proof. split; [reflexivity|]. split; [reflexivity | discriminate]. Qed.

Lemma overview_cycles_page {Any : Type} (status0 : Any) (now0 : Z)
    (evs : list OverviewPage.Event) :
  fst (OverviewCycles.run status0 now0 evs) = OverviewPage.run status0 now0 evs.
Proof.
  unfold OverviewCycles.run, OverviewPage.run, OverviewCycles.mount.
  generalize (Overview.initial status0 now0) 1.
  induction evs as [|ev evs IH]; intros st n; [done|].
  cbn [fold_left]. by destruct ev; cbn [OverviewCycles.step fst snd]; rewrite IH.
Qed.

(** C8, as the code has it.  In each of the three views the timer calls
    [loadData], and [loadData] starts a cycle without looking whether one
    is in flight.  A tick adds one cycle to those in flight in the logs
    view and in the overview (n ticks without an answer leave n + 1 cycles
    in flight), and four fetches to those outstanding in the analytics
    view. *)
Theorem tick_always_starts_cycle :
  (forall toLowerCase (st : SystemLogs.State),
     SystemLogs.inFlight (SystemLogs.step toLowerCase st SystemLogs.Tick)
     = S (SystemLogs.inFlight st))
  /\ (forall toLowerCase (n : nat),
        SystemLogs.inFlight
          (SystemLogs.run toLowerCase (repeat SystemLogs.Tick n))
        = S n)
  /\ (forall (Alert Network Metric : Type)
             (st : Analytics.State Alert Network Metric),
        Analytics.outstanding (Analytics.tick st)
        = 4 + Analytics.outstanding st)
  /\ (forall (Alert Network Metric : Type)
             (st : Analytics.State Alert Network Metric) (n : nat),
        Analytics.outstanding (Nat.iter n Analytics.tick (Analytics.loadData st))
        = 4 * S n + Analytics.outstanding st)
  /\ (forall (Any : Type) (t : @OverviewCycles.Tracked Any),
        snd (OverviewCycles.step t OverviewPage.Tick) = S (snd t)
        /\ fst (OverviewCycles.step t OverviewPage.Tick) = fst t)
  /\ (forall (Any : Type) (status0 : Any) (now0 : Z) (n : nat),
        snd (OverviewCycles.run status0 now0 (repeat OverviewPage.Tick n))
        = S n
        /\ fst (OverviewCycles.run status0 now0 (repeat OverviewPage.Tick n))
           = Overview.initial status0 now0).
Proof.
  split; [done|]. split; [|split; [done|split; [|split; [done|]]]].
  - intros toLowerCase n. unfold SystemLogs.run.
    assert (forall st,
              SystemLogs.inFlight
                (fold_left (SystemLogs.step toLowerCase)
                           (repeat SystemLogs.Tick n) st)
              = n + SystemLogs.inFlight st) as H.
    { induction n as [|n IH]; intros st; simpl; [done|]. rewrite IH. simpl. lia. }
    rewrite H. simpl. lia.
  - intros Alert Network Metric st n.
    induction n as [|n IH]; [simpl; lia|].
    transitivity (4 + Analytics.outstanding
                        (Nat.iter n Analytics.tick (Analytics.loadData st)));
      [reflexivity | rewrite IH; lia].
  - intros Any status0 now0 n. unfold OverviewCycles.run, OverviewCycles.mount.
    assert (forall t : @OverviewCycles.Tracked Any,
              fold_left OverviewCycles.step (repeat OverviewPage.Tick n) t
              = (fst t, n + snd t)) as H.
    { induction n as [|n IH]; intros [st k]; [done|].
      cbn [repeat fold_left]. rewrite IH. cbn. f_equal. lia. }
    rewrite H. cbn. split; [lia | done].
Qed.

(** C8, as the specification has it, fails: a tick that fires while the
    cycle started at mount is in flight is not skipped, and two cycles are
    in flight. *)
Lemma tick_overlaps_cycle_in_flight :
  SystemLogs.inFlight SystemLogs.mount = 1
  /\ SystemLogs.inFlight
       (SystemLogs.run Js.ascii_toLowerCase [SystemLogs.Tick]) = 2
  /\ SystemLogs.step Js.ascii_toLowerCase SystemLogs.mount SystemLogs.Tick
     <> SystemLogs.mount.
Proof. split; [reflexivity|]. split; [reflexivity | discriminate]. Qed.

(** ** The claim about the overview readings *)

Lemma readings_of_zero (ms : list Overview.Metric)
    (ns : list Overview.NetworkSample) :
  Overview.readings (ms ++ [Overview.zeroMetric]) (ns ++ [Overview.zeroNetwork])
  = Overview.readings [] [].
Proof.
  unfold Overview.readings, Overview.latestMetrics, Overview.inboundTraffic,
    Overview.outboundTraffic, Overview.totalInbound, Overview.totalOutbound,
    Overview.packetLoss.
  rewrite !last_snoc. reflexivity.
Qed.

(** C9, as the code has it.  A source that has never been fetched shows
    literal defaults.  Once the first cycle is over, the page of a view
    whose fetches never succeeded shows CPU 0, memory 0, load 0, traffic 0,
    swap 2.68, disk 15.926 (16.77 in the bar) and 16 processes.  Each of
    these readings is the reading of a latest sample that measures zero
    in the field it is derived from, and the whole page is the page of
    samples that measure zero everywhere. *)
Theorem never_fetched_shows_defaults (Any : Type) (status0 : Any)
    (now0 now1 now2 : Z) (e : string) (s t a : Any) (u l : list Any)
    (ms : list Overview.Metric) (ns : list Overview.NetworkSample) :
  Overview.render
    (Overview.loadData_resume (Rejected e) now1 (Overview.initial status0 now0))
  = Overview.Dashboard (Overview.readings [] [])
  /\ Overview.readings [] []
     = Overview.mkReadings 0 0 (Overview.Number 0) 0 0 0 0 0
         (268 # 100) (21464 # 1000) (31342 # 1000) 16
         (15926 # 1000) (1677 # 100)
  /\ (forall cpu mem ld sw dk pr mt mu,
        Overview.cpu_usage
          (Overview.readings (ms ++ [Overview.mkMetric 0 mem ld sw dk pr mt mu]) ns)
        = Overview.cpu_usage (Overview.readings [] [])
        /\ Overview.memory_usage
             (Overview.readings (ms ++ [Overview.mkMetric cpu 0 ld sw dk pr mt mu]) ns)
           = Overview.memory_usage (Overview.readings [] [])
        /\ Overview.sys_load
             (Overview.readings
                (ms ++ [Overview.mkMetric cpu mem (Some 0%Q) sw dk pr mt mu]) ns)
           = Overview.sys_load (Overview.readings [] [])
        /\ Overview.swap_usage
             (Overview.readings
                (ms ++ [Overview.mkMetric cpu mem ld (Some 0%Q) dk pr mt mu]) ns)
           = Overview.swap_usage (Overview.readings [] [])
        /\ Overview.disk_used
             (Overview.readings
                (ms ++ [Overview.mkMetric cpu mem ld sw (Some 0%Q) pr mt mu]) ns)
           = Overview.disk_used (Overview.readings [] [])
        /\ Overview.process_count
             (Overview.readings
                (ms ++ [Overview.mkMetric cpu mem ld sw dk (Some 0%Q) mt mu]) ns)
           = Overview.process_count (Overview.readings [] []))
  /\ (forall i o ti to pl,
        Overview.inbound
          (Overview.readings ms (ns ++ [Overview.mkNetworkSample 0 o ti to pl]))
        = Overview.inbound (Overview.readings [] [])
        /\ Overview.outbound
             (Overview.readings ms (ns ++ [Overview.mkNetworkSample i 0 ti to pl]))
           = Overview.outbound (Overview.readings [] []))
  /\ Overview.render
       (Overview.loadData_resume
          (Resolved (Overview.mkFetched s t u (ms ++ [Overview.zeroMetric])
                       (ns ++ [Overview.zeroNetwork]) a l))
          now2 (Overview.initial status0 now0))
     = Overview.render
         (Overview.loadData_resume (Rejected e) now1
            (Overview.initial status0 now0)).
Proof.
  split; [reflexivity|]. split; [reflexivity|]. split; [|split].
  - intros. unfold Overview.readings, Overview.latestMetrics.
    rewrite !last_snoc. by repeat split.
  - intros. unfold Overview.readings, Overview.inboundTraffic,
      Overview.outboundTraffic.
    rewrite !last_snoc. by split.
  - unfold Overview.render; simpl. by rewrite readings_of_zero.
Qed.

(** C9, as the specification has it, fails: after a first cycle that
    failed the page is the page of measured zeros. *)
Lemma never_fetched_looks_like_zero :
  Overview.metrics overview_never = []
  /\ Overview.metrics overview_zero = [Overview.zeroMetric]
  /\ Overview.render overview_never = Overview.render overview_zero.
Proof. repeat split; reflexivity. Qed.

(** * Further properties of the pages *)

(** ** The column headers and the badge of the logs view *)

(** X1.  After a click on a column header the view is sorted by that
    column.  A click on another column than the current one sorts
    descending; a second click on the same column flips the direction, so
    two clicks on the current column change nothing and three clicks on
    any column are one click. *)
Theorem handleSort_clicks (field : SortField) (st : LogsPage.Sorting) :
  LogsPage.sortField (LogsPage.handleSort field st) = field
  /\ LogsPage.handleSort field
       (LogsPage.handleSort field (LogsPage.handleSort field st))
     = LogsPage.handleSort field st
  /\ (LogsPage.sortField st = field ->
      LogsPage.sortDirection (LogsPage.handleSort field st)
      <> LogsPage.sortDirection st
      /\ LogsPage.handleSort field (LogsPage.handleSort field st) = st)
  /\ (LogsPage.sortField st <> field ->
      LogsPage.handleSort field st = LogsPage.mkSorting field desc
      /\ LogsPage.handleSort field (LogsPage.handleSort field st)
         = LogsPage.mkSorting field asc).
Proof.
  destruct st as [f d].
  split; [|split; [|split]].
  - by destruct field, f.
  - by destruct field, f, d.
  - simpl. intros ->. by destruct field, d.
  - simpl. intros Hne. by destruct field, f, d.
Qed.

Lemma handleSort_clicks_witness :
  LogsPage.handleSort by_severity
    (LogsPage.handleSort by_severity LogsPage.initialSorting)
  = LogsPage.mkSorting by_severity asc
  /\ LogsPage.handleSort by_timestamp
       (LogsPage.handleSort by_timestamp LogsPage.initialSorting)
     = LogsPage.initialSorting.
Proof.
  split.
  - apply (proj2 (proj2 (proj2
      (handleSort_clicks by_severity LogsPage.initialSorting)))).
    discriminate.
  - apply (proj1 (proj2 (proj2
      (handleSort_clicks by_timestamp LogsPage.initialSorting)))).
    reflexivity.
Defined.

Lemma severity_name_inj (a b : Severity) :
  severity_name a = severity_name b -> a = b.
Proof. by destruct a, b. Qed.

(** X2.  Two rows get the same badge style exactly when they have the
    same severity (or both none); a string that is not the name of a
    severity, in lower case, gets the style of a missing severity. *)
Theorem badge_separates_severities :
  (forall a b : LogEntry,
     LogsPage.badge a = LogsPage.badge b <-> severity a = severity b)
  /\ (forall s : string,
        LogsPage.getSeverityClass (Some s) = LogsPage.getSeverityClass None
        <-> forall sv, severity_name sv <> s).
Proof.
  split.
  - intros a b. unfold LogsPage.badge.
    destruct (severity a) as [[]|], (severity b) as [[]|]; simpl;
      split; intros H; (reflexivity || discriminate H).
  - intros s. unfold LogsPage.getSeverityClass.
    destruct (String.eqb s "critical") eqn:E1;
      [apply String.eqb_eq in E1; subst s; split;
         [discriminate | intros H; by destruct (H critical)]|].
    destruct (String.eqb s "high") eqn:E2;
      [apply String.eqb_eq in E2; subst s; split;
         [discriminate | intros H; by destruct (H high)]|].
    destruct (String.eqb s "medium") eqn:E3;
      [apply String.eqb_eq in E3; subst s; split;
         [discriminate | intros H; by destruct (H medium)]|].
    destruct (String.eqb s "low") eqn:E4;
      [apply String.eqb_eq in E4; subst s; split;
         [discriminate | intros H; by destruct (H low)]|].
    apply String.eqb_neq in E1, E2, E3, E4.
    split; [|done]. intros _ sv Hsv. destruct sv; simpl in Hsv; congruence.
Qed.

(** ** The severity counts of the logs view *)

Lemma severityCounts_fold (l : list LogEntry) (acc : gmap string nat)
    (key : string) :
  fold_left
    (fun acc log =>
       <[LogsPage.bucket log := default 0 (acc !! LogsPage.bucket log) + 1]> acc)
    l acc !! key
  = match LogsPage.in_bucket key l with
    | 0 => acc !! key
    | S n => Some (default 0 (acc !! key) + S n)
    end.
Proof.
  revert acc. induction l as [|log l IH]; intros acc; [done|].
  simpl. rewrite IH. unfold LogsPage.in_bucket. simpl.
  destruct (String.eqb (LogsPage.bucket log) key) eqn:E.
  - apply String.eqb_eq in E. rewrite E, lookup_insert_eq. simpl.
    destruct (length _); f_equal; lia.
  - apply String.eqb_neq in E. by rewrite lookup_insert_ne.
Qed.

Lemma in_bucket_total (l : list LogEntry) :
  LogsPage.in_bucket "critical" l + LogsPage.in_bucket "high" l
  + LogsPage.in_bucket "medium" l + LogsPage.in_bucket "low" l
  + LogsPage.in_bucket "unknown" l
  = length l.
Proof.
  unfold LogsPage.in_bucket.
  induction l as [|log l IH]; [done|]. simpl.
  assert (In (LogsPage.bucket log)
             ["critical"; "high"; "medium"; "low"; "unknown"]) as Hb.
  { unfold LogsPage.bucket. destruct (severity log) as [[]|]; simpl; tauto. }
  destruct Hb as [<- | [<- | [<- | [<- | [<- | []]]]]]; simpl; lia.
Qed.

(** X3.  The counts are the numbers of rows of the view per severity:
    the count shown for a key ([severityCounts[key] || 0]) is the number
    of rows in that bucket, a key is present exactly when a row falls in
    its bucket (so no stored count is 0), and the five counts add up to
    the number of rows. *)
Theorem severityCounts_counts (view : list LogEntry) :
  (forall key,
     default 0 (LogsPage.severityCounts view !! key)
     = LogsPage.in_bucket key view)
  /\ (forall key,
        LogsPage.severityCounts view !! key = None
        <-> forall log, log ∈ view -> LogsPage.bucket log <> key)
  /\ (forall key, LogsPage.severityCounts view !! key <> Some 0)
  /\ default 0 (LogsPage.severityCounts view !! "critical")
     + default 0 (LogsPage.severityCounts view !! "high")
     + default 0 (LogsPage.severityCounts view !! "medium")
     + default 0 (LogsPage.severityCounts view !! "low")
     + default 0 (LogsPage.severityCounts view !! "unknown")
     = length view.
Proof.
  assert (forall key,
            LogsPage.severityCounts view !! key
            = match LogsPage.in_bucket key view with
              | 0 => None
              | S n => Some (S n)
              end) as Hlookup.
  { intros key. unfold LogsPage.severityCounts.
    rewrite severityCounts_fold, lookup_empty. by destruct (LogsPage.in_bucket _ _). }
  split; [|split; [|split]].
  - intros key. rewrite Hlookup. by destruct (LogsPage.in_bucket _ _).
  - intros key. rewrite Hlookup. unfold LogsPage.in_bucket. split.
    + intros H log Hin Hkey.
      assert (In log (List.filter
                (fun log => String.eqb (LogsPage.bucket log) key) view)) as Hf.
      { apply filter_In. split; [by apply list_elem_of_In|].
        by apply String.eqb_eq. }
      destruct (List.filter _ view); [done | discriminate].
    + intros H.
      destruct (List.filter (fun log => String.eqb (LogsPage.bucket log) key) view)
        as [|log l'] eqn:E; [done|].
      assert (In log (List.filter
                (fun log => String.eqb (LogsPage.bucket log) key) view)) as Hf
        by (rewrite E; by left).
      apply filter_In in Hf as [Hin Hkey]. apply String.eqb_eq in Hkey.
      by destruct (H log (proj2 (list_elem_of_In _ _) Hin)).
  - intros key. rewrite Hlookup. by destruct (LogsPage.in_bucket _ _).
  - rewrite !Hlookup. rewrite <- (in_bucket_total view).
    by destruct (LogsPage.in_bucket "critical" view),
               (LogsPage.in_bucket "high" view),
               (LogsPage.in_bucket "medium" view),
               (LogsPage.in_bucket "low" view),
               (LogsPage.in_bucket "unknown" view).
Qed.

(** X4.  With a severity selected, the counts of the view have that one
    key and it counts every row of the view; every other key is
    missing. *)
Theorem severityCounts_of_selection toLowerCase getTime localeCompare
    (logs : list LogEntry) (filter : string) (field : SortField)
    (dir : SortDirection) (s : Severity) :
  (forall key,
     key <> severity_name s ->
     LogsPage.severityCounts
       (processedLogs toLowerCase getTime localeCompare logs filter field dir
          (Some (severity_name s))) !! key = None)
  /\ default 0
       (LogsPage.severityCounts
          (processedLogs toLowerCase getTime localeCompare logs filter field dir
             (Some (severity_name s))) !! severity_name s)
     = length (processedLogs toLowerCase getTime localeCompare logs filter
                 field dir (Some (severity_name s))).
Proof.
  set (view := processedLogs toLowerCase getTime localeCompare logs filter
                 field dir (Some (severity_name s))).
  assert (forall log, log ∈ view -> LogsPage.bucket log = severity_name s) as Hall.
  { intros log Hin. unfold view in Hin.
    rewrite view_sorts_filtered, sort_perm in Hin.
    apply elem_of_filtered in Hin as (_ & _ & Hsel). simpl in Hsel.
    destruct Hsel as [Hempty | (s' & Hs' & Heq)]; [by destruct s|].
    unfold LogsPage.bucket. by rewrite Hs'. }
  destruct (severityCounts_counts view) as (Hcount & Hnone & _ & Htotal).
  assert (forall key, key <> severity_name s ->
                      LogsPage.severityCounts view !! key = None) as Hother.
  { intros key Hkey. apply Hnone. intros log Hin Hb.
    rewrite (Hall log Hin) in Hb. congruence. }
  split; [exact Hother|].
  rewrite <- Htotal.
  destruct s; simpl;
    repeat match goal with
           | |- context [LogsPage.severityCounts view !! ?k] =>
               lazymatch goal with
               | H : LogsPage.severityCounts view !! k = None |- _ => fail
               | _ => assert (LogsPage.severityCounts view !! k = None)
                        by (apply Hother; discriminate)
               end
           end;
    repeat match goal with
           | H : LogsPage.severityCounts view !! _ = None |- _ =>
               rewrite H; clear H
           end; simpl; lia.
Qed.

Lemma severityCounts_of_selection_witness :
  LogsPage.severityCounts
    (processedLogs Js.ascii_toLowerCase no_time Js.ascii_compare
       [log_critical; log_high; log_unknown] "" by_timestamp desc
       (Some (severity_name high))) !! "critical"
  = None.
Proof.
  apply (proj1 (severityCounts_of_selection Js.ascii_toLowerCase no_time
                  Js.ascii_compare [log_critical; log_high; log_unknown]
                  "" by_timestamp desc high)).
  discriminate.
Defined.

(** ** What the logs view can hold *)

Lemma classify_classified toLowerCase (log : LogEntry) :
  known_severity (classify toLowerCase log) = true
  /\ Js.truthy (type (classify toLowerCase log)) = true.
Proof.
  unfold classify. split; [|apply classify_type_truthy].
  unfold known_severity. rewrite classify_type_severity.
  apply classify_severity_known.
Qed.

Lemma run_snoc toLowerCase (evs : list SystemLogs.Event) (ev : SystemLogs.Event) :
  SystemLogs.run toLowerCase (evs ++ [ev])
  = SystemLogs.step toLowerCase (SystemLogs.run toLowerCase evs) ev.
Proof. unfold SystemLogs.run. by rewrite fold_left_app. Qed.

(** X5.  Whatever happens to the mounted logs view, the three cells it
    shows belong together: either nothing has been loaded (no logs, no
    summaries), or the logs are the classified logs, and the summaries
    the summaries, of one and the same cycle whose three fetches were all
    fulfilled. *)
Theorem logs_view_cells_of_one_cycle toLowerCase (evs : list SystemLogs.Event) :
  (SystemLogs.logs (SystemLogs.run toLowerCase evs) = []
   /\ SystemLogs.alertSummary (SystemLogs.run toLowerCase evs) = None
   /\ SystemLogs.threatSummary (SystemLogs.run toLowerCase evs) = None)
  \/ exists l a t,
       SystemLogs.Settled (Resolved l) (Resolved a) (Resolved t) ∈ evs
       /\ SystemLogs.logs (SystemLogs.run toLowerCase evs)
          = enhancedLogs toLowerCase l
       /\ SystemLogs.alertSummary (SystemLogs.run toLowerCase evs) = Some a
       /\ SystemLogs.threatSummary (SystemLogs.run toLowerCase evs) = Some t.
Proof.
  induction evs as [|ev evs IH] using rev_ind; [by left|].
  rewrite run_snoc.
  assert (SystemLogs.logs (SystemLogs.run toLowerCase evs) = []
          /\ SystemLogs.alertSummary (SystemLogs.run toLowerCase evs) = None
          /\ SystemLogs.threatSummary (SystemLogs.run toLowerCase evs) = None
          \/ exists l a t,
               SystemLogs.Settled (Resolved l) (Resolved a) (Resolved t)
                 ∈ evs ++ [ev]
               /\ SystemLogs.logs (SystemLogs.run toLowerCase evs)
                  = enhancedLogs toLowerCase l
               /\ SystemLogs.alertSummary (SystemLogs.run toLowerCase evs) = Some a
               /\ SystemLogs.threatSummary (SystemLogs.run toLowerCase evs) = Some t)
    as Hkeep.
  { destruct IH as [H | (l & a & t & Hin & H)]; [by left|].
    right. exists l, a, t. split; [|done]. apply elem_of_app. by left. }
  destruct ev as [|rl ra rt]; [exact Hkeep|]. simpl.
  destruct (SystemLogs.inFlight (SystemLogs.run toLowerCase evs)); [exact Hkeep|].
  unfold SystemLogs.loadData_resume.
  destruct rl as [l|e], ra as [a|e'], rt as [t|e'']; simpl; try exact Hkeep.
  right. exists l, a, t. split; [|done].
  apply elem_of_app. right. by apply list_elem_of_singleton.
Qed.

(** X6.  Every log the mounted logs view holds has been classified: it
    has a severity and a non-empty type.  So the rows that reach the
    sort all have a severity, and the counts of any view of them have no
    "unknown" key. *)
Theorem logs_view_holds_classified_logs toLowerCase getTime localeCompare
    (evs : list SystemLogs.Event) :
  (forall log,
     log ∈ SystemLogs.logs (SystemLogs.run toLowerCase evs) ->
     known_severity log = true /\ Js.truthy (type log) = true)
  /\ (forall filter field dir sel,
        (forall log,
           log ∈ processedLogs toLowerCase getTime localeCompare
                   (SystemLogs.logs (SystemLogs.run toLowerCase evs))
                   filter field dir sel ->
           known_severity log = true)
        /\ LogsPage.severityCounts
             (processedLogs toLowerCase getTime localeCompare
                (SystemLogs.logs (SystemLogs.run toLowerCase evs))
                filter field dir sel) !! "unknown"
           = None).
Proof.
  assert (forall log,
            log ∈ SystemLogs.logs (SystemLogs.run toLowerCase evs) ->
            known_severity log = true /\ Js.truthy (type log) = true) as Hlogs.
  { intros log Hin.
    destruct (logs_view_cells_of_one_cycle toLowerCase evs)
      as [(Hnil & _) | (l & a & t & _ & Hl & _)].
    - rewrite Hnil in Hin. by apply elem_of_nil in Hin.
    - rewrite Hl in Hin. unfold enhancedLogs in Hin.
      apply list_elem_of_fmap in Hin as (raw & -> & _).
      apply classify_classified. }
  split; [exact Hlogs|]. intros filter field dir sel.
  assert (forall log,
            log ∈ processedLogs toLowerCase getTime localeCompare
                    (SystemLogs.logs (SystemLogs.run toLowerCase evs))
                    filter field dir sel ->
            known_severity log = true) as Hview.
  { intros log Hin. rewrite view_sorts_filtered, sort_perm in Hin.
    apply elem_of_filtered in Hin as (Hin & _). by apply Hlogs. }
  split; [exact Hview|].
  apply severityCounts_counts. intros log Hin Hb.
  apply Hview in Hin. unfold known_severity in Hin. unfold LogsPage.bucket in Hb.
  destruct (severity log) as [[]|]; done.
Qed.

(** ** What the overview page can hold *)

Section OverviewPageFacts.

Context {Any : Type}.

Implicit Types evs : list (@OverviewPage.Event Any).

Lemma last_fulfilled_snoc evs (ev : OverviewPage.Event) :
  OverviewPage.last_fulfilled (evs ++ [ev])
  = match ev with
    | OverviewPage.Settled (Resolved d) now => Some (d, now)
    | _ => OverviewPage.last_fulfilled evs
    end.
Proof.
  induction evs as [|e evs IH]; simpl.
  - by destruct ev as [| |[d|err] now].
  - rewrite IH. destruct ev as [| |[d|err] now]; try done.
Qed.

Lemma awaiting_snoc evs (ev : OverviewPage.Event) :
  OverviewPage.awaiting (evs ++ [ev])
  = match ev with
    | OverviewPage.Tick => OverviewPage.awaiting evs
    | OverviewPage.Refresh => true
    | OverviewPage.Settled _ _ => false
    end.
Proof.
  induction evs as [|e evs IH]; simpl.
  - by destruct ev.
  - rewrite forallb_app, IH. simpl.
    by destruct ev; rewrite ?andb_true_r, ?andb_false_r.
Qed.

End OverviewPageFacts.

(** X7.  Whatever happens to the mounted overview page, its seven data
    cells and the refresh time are those of the last cycle whose fetches
    were all fulfilled (the initial values when there is none): the cells
    never mix two cycles, and a timer tick or a cycle with a rejected
    fetch changes none of them.  The loading screen is shown from the
    mount, and from a click on Refresh, until the next cycle settles. *)
Theorem overview_cells_of_last_fulfilled_cycle (Any : Type) (status0 : Any)
    (now0 : Z) (evs : list (@OverviewPage.Event Any)) :
  OverviewPage.run status0 now0 evs
  = match OverviewPage.last_fulfilled evs with
    | Some (d, now) =>
        Overview.mkState (Overview.statusData d) (Some (Overview.threatData d))
          (Overview.activityData d) (Overview.metricsData d)
          (Overview.networkData' d) (Some (Overview.alertData d))
          (Overview.logsData d) (OverviewPage.awaiting evs) now
    | None =>
        Overview.mkState status0 None [] [] [] None []
          (OverviewPage.awaiting evs) now0
    end
  /\ (Overview.render (OverviewPage.run status0 now0 evs)
      = Overview.LoadingScreen
      <-> OverviewPage.awaiting evs = true).
Proof.
  assert (OverviewPage.run status0 now0 evs
          = match OverviewPage.last_fulfilled evs with
            | Some (d, now) =>
                Overview.mkState (Overview.statusData d)
                  (Some (Overview.threatData d)) (Overview.activityData d)
                  (Overview.metricsData d) (Overview.networkData' d)
                  (Some (Overview.alertData d)) (Overview.logsData d)
                  (OverviewPage.awaiting evs) now
            | None =>
                Overview.mkState status0 None [] [] [] None []
                  (OverviewPage.awaiting evs) now0
            end) as Hrun.
  { induction evs as [|ev evs IH] using rev_ind; [done|].
    unfold OverviewPage.run in *. rewrite fold_left_app. simpl. rewrite IH.
    rewrite last_fulfilled_snoc, awaiting_snoc.
    destruct ev as [| |[d|err] now]; simpl;
      by destruct (OverviewPage.last_fulfilled evs) as [[d' now']|]. }
  split; [exact Hrun|].
  rewrite Hrun. unfold Overview.render.
  destruct (OverviewPage.last_fulfilled evs) as [[d now]|]; simpl;
    by destruct (OverviewPage.awaiting evs).
Qed.

(** ** The refresh time of the analytics page *)

Lemma settled0_issued0 : settled0 ≡ₚ issued0.
Proof.
  unfold settled0, issued0, Analytics.issued.
  apply (Permutation_cons_app [_; _; _] []). apply perm_swap.
Defined.

(** X8.  "Last refreshed" on the analytics page follows the analytics
    fetch alone: whatever the order in which the four fetches of a cycle
    settle, the time moves when the analytics fetch is fulfilled and
    stays when it is rejected, whether or not the other three brought
    new data; and when the four have settled no fetch of the cycle is
    outstanding. *)
Theorem last_refreshed_follows_analytics_fetch (Alert Network Metric : Type)
    (st : Analytics.State Alert Network Metric)
    ra now rb rc rd (order : list Analytics.Settle) :
  order ≡ₚ Analytics.issued ra now rb rc rd ->
  Analytics.lastRefreshed (Analytics.cycle order st)
  = (if failed ra then Analytics.lastRefreshed st else now)
  /\ Analytics.outstanding (Analytics.cycle order st)
     = Analytics.outstanding st.
Proof.
  intros Hperm. unfold Analytics.cycle. split.
  - rewrite (fold_single_writer Analytics.settle Analytics.lastRefreshed
               (fun ev v => match ev with
                            | Analytics.AnalyticsSettled (Resolved _) now => now
                            | _ => v
                            end)
               ltac:(by intros ? [[?|?] ?|[?|?]|[?|?]|[?|?]])
               order _ _ Hperm).
    + by destruct ra.
    + intros e He v. by repeat (apply elem_of_cons in He as [-> | He]; [done|]);
        apply elem_of_nil in He.
  - rewrite outstanding_after_settles, (Permutation_length Hperm). simpl. lia.
Qed.

Lemma last_refreshed_follows_analytics_fetch_witness :
  settled0 ≡ₚ issued0
  /\ Analytics.lastRefreshed (Analytics.cycle settled0 (Analytics.initial 0))
     = 60%Z.
Proof.
  split; [exact settled0_issued0|].
  apply (proj1 (last_refreshed_follows_analytics_fetch nat nat nat
                  (Analytics.initial 0) (Resolved analytics0) 60%Z
                  (Rejected "timeout") (Resolved [1; 2]) (Resolved [7])
                  settled0 settled0_issued0)).
Defined.

(** ** The charts of the analytics page *)

(** X9.  Every cell of a chart gets a colour, however many cells there
    are: the index never leaves the palette.  The colours repeat with
    period six, and two cells have the same colour exactly when their
    indices differ by a multiple of six. *)
Theorem cellColor_cycles :
  (forall index, is_Some (AnalyticsPage.cellColor index))
  /\ (forall index,
        AnalyticsPage.cellColor (index + 6) = AnalyticsPage.cellColor index)
  /\ (forall i j,
        AnalyticsPage.cellColor i = AnalyticsPage.cellColor j
        <-> i mod 6 = j mod 6).
Proof.
  assert (NoDup AnalyticsPage.COLORS) as Hnodup.
  { apply (bool_decide_unpack _). by vm_compute. }
  assert (forall index, index mod 6 < length AnalyticsPage.COLORS) as Hlt.
  { intros index. change (length AnalyticsPage.COLORS) with 6.
    apply Nat.mod_upper_bound. lia. }
  split; [|split].
  - intros index. unfold AnalyticsPage.cellColor.
    apply lookup_lt_is_Some. apply Hlt.
  - intros index. unfold AnalyticsPage.cellColor.
    change (length AnalyticsPage.COLORS) with 6.
    replace (index + 6) with (index + 1 * 6) by lia.
    by rewrite Nat.Div0.mod_add.
  - intros i j. unfold AnalyticsPage.cellColor.
    change (length AnalyticsPage.COLORS) with 6. split; [|by intros ->].
    intros Heq.
    destruct (lookup_lt_is_Some_2 AnalyticsPage.COLORS (i mod 6) (Hlt i))
      as [c Hc].
    eapply NoDup_lookup; [exact Hnodup | exact Hc |]. by rewrite <- Heq.
Qed.

(** X10.  The performance chart has one point per timestamp.  The point
    at an index carries the CPU and memory values at that index, and a
    missing value where the array is too short; values beyond the last
    timestamp are not drawn.  Before the analytics have been loaded the
    chart is empty. *)
Theorem systemPerformanceData_points (toLocaleTimeString : string -> string)
    (analytics : option Analytics.Analytics) :
  length (AnalyticsPage.systemPerformanceData toLocaleTimeString analytics)
  = length (Analytics.timestamps (AnalyticsPage.displayAnalytics analytics))
  /\ (forall index,
        AnalyticsPage.systemPerformanceData toLocaleTimeString analytics !! index
        = (fun timestamp =>
             AnalyticsPage.mkPoint (toLocaleTimeString timestamp)
               (Analytics.cpu (AnalyticsPage.displayAnalytics analytics) !! index)
               (Analytics.memory (AnalyticsPage.displayAnalytics analytics) !! index))
          <$> Analytics.timestamps (AnalyticsPage.displayAnalytics analytics)
              !! index)
  /\ (forall index point,
        AnalyticsPage.systemPerformanceData toLocaleTimeString analytics !! index
        = Some point ->
        (AnalyticsPage.cpu point = None
         <-> length (Analytics.cpu (AnalyticsPage.displayAnalytics analytics))
             <= index)
        /\ (AnalyticsPage.memory point = None
            <-> length (Analytics.memory (AnalyticsPage.displayAnalytics analytics))
                <= index))
  /\ AnalyticsPage.systemPerformanceData toLocaleTimeString None = [].
Proof.
  unfold AnalyticsPage.systemPerformanceData.
  split; [by rewrite length_imap|]. split; [|split; [|done]].
  - intros index. by rewrite list_lookup_imap.
  - intros index point. rewrite list_lookup_imap.
    destruct (Analytics.timestamps _ !! index) as [ts|]; [|done].
    simpl. intros [= <-]. simpl. by rewrite !lookup_ge_None.
Qed.

Lemma systemPerformanceData_points_witness :
  AnalyticsPage.systemPerformanceData (fun ts => ts)
    (Some (Analytics.mkAnalytics ["10:00"; "10:01"] [12 # 1]%Q [] [] [] 0 0 0))
  = [AnalyticsPage.mkPoint "10:00" (Some (12 # 1)%Q) None;
     AnalyticsPage.mkPoint "10:01" None None]
  /\ (AnalyticsPage.cpu (AnalyticsPage.mkPoint "10:01" None None) = None
      <-> length [12 # 1]%Q <= 1).
Proof.
  split; [reflexivity|].
  destruct (systemPerformanceData_points (fun ts => ts)
              (Some (Analytics.mkAnalytics ["10:00"; "10:01"] [12 # 1]%Q [] []
                       [] 0 0 0))) as (_ & _ & Hpoint & _).
  exact (proj1 (Hpoint 1 (AnalyticsPage.mkPoint "10:01" None None) eq_refl)).
Defined.

(** ** The process tables of the overview page *)

Lemma sign_in_order (x y : Q) :
  (match OverviewPage.sign (y - x)%Q with Js.NaN => 0 | Js.Num v => v end <= 0)%Z
  <-> (y <= x)%Q.
Proof.
  unfold OverviewPage.sign. rewrite Z.sgn_nonpos.
  destruct x as [xn xd], y as [yn yd]. unfold Qle. simpl. lia.
Qed.

Lemma StronglySorted_weaken {A : Type} (R R' : A -> A -> Prop) (l : list A) :
  (forall x y, R x y -> R' x y) -> StronglySorted R l -> StronglySorted R' l.
Proof.
  intros HR. induction 1 as [|x l Hl IH Hx]; constructor; [done|].
  eapply Forall_impl; [exact Hx | exact (HR x)].
Qed.

Lemma sort_descending (rows : list (string * Q)) :
  StronglySorted (fun a b => (snd b <= snd a)%Q)
    (sort (fun a b => OverviewPage.sign (snd b - snd a)%Q) rows).
Proof.
  eapply StronglySorted_weaken; [|apply sort_sorted].
  - intros x y. unfold in_order, sortCompare. apply sign_in_order.
  - intros x y. unfold in_order, sortCompare. rewrite sign_in_order.
    intros H. apply Z.lt_nge in H. rewrite sign_in_order in H.
    apply Qnot_le_lt in H. by apply Qlt_le_weak.
  - intros x y z. unfold in_order, sortCompare. rewrite !sign_in_order.
    intros Hxy Hyz. by eapply Qle_trans.
Qed.

(** X11.  Each process table shows at most seven rows, taken from the
    first seven entries of type 'process' in the order of the logs (not
    the seven largest), and shows them largest value first. *)
Theorem process_tables_first_seven_descending
    (logs : list OverviewPage.ProcessLog) :
  (length (OverviewPage.processMemoryData logs)
   = Nat.min 7 (length (List.filter OverviewPage.is_process logs))
   /\ OverviewPage.processMemoryData logs
      ≡ₚ map (fun process =>
                (OverviewPage.name_of process,
                 Overview.or_default (OverviewPage.memory_percent process) 0%Q))
             (take 7 (List.filter OverviewPage.is_process logs))
   /\ StronglySorted (fun a b => (snd b <= snd a)%Q)
        (OverviewPage.processMemoryData logs))
  /\ (length (OverviewPage.processCPUData logs)
      = Nat.min 7 (length (List.filter OverviewPage.is_process logs))
      /\ OverviewPage.processCPUData logs
         ≡ₚ map (fun process =>
                   (OverviewPage.name_of process,
                    Overview.or_default (OverviewPage.cpu_percent process) 0%Q))
                (take 7 (List.filter OverviewPage.is_process logs))
      /\ StronglySorted (fun a b => (snd b <= snd a)%Q)
           (OverviewPage.processCPUData logs)).
Proof.
  unfold OverviewPage.processMemoryData, OverviewPage.processCPUData.
  split; (split; [|split; [apply sort_perm | apply sort_descending]]);
    by rewrite sort_perm, length_map, length_take.
Qed.

(** ** The order of the view *)

Section ArraySortOn.

Context {A : Type} (comparefn : A -> A -> Js.number) (P : A -> Prop).

(** The comparator is consistent on the elements that satisfy [P]. *)
Hypothesis total_on :
  forall x y, P x -> P y ->
    (0 < sortCompare comparefn x y)%Z -> in_order comparefn y x.
Hypothesis trans_on :
  forall x y z, P x -> P y -> P z ->
    in_order comparefn x y -> in_order comparefn y z -> in_order comparefn x z.

Lemma insert_sorted_sorted_on (x : A) (l : list A) :
  P x -> Forall P l ->
  StronglySorted (in_order comparefn) l ->
  StronglySorted (in_order comparefn) (insert_sorted comparefn x l).
Proof.
  intros Hx HP Hl. induction Hl as [|y l Hl IH Hy]; simpl.
  - repeat constructor.
  - apply Forall_cons in HP as [HPy HPl].
    destruct (0 <? sortCompare comparefn x y)%Z eqn:E.
    + apply Z.ltb_lt in E. constructor; [by apply IH|].
      rewrite insert_sorted_perm. constructor; [|exact Hy].
      by apply total_on.
    + apply Z.ltb_ge in E. constructor; [by constructor|].
      constructor; [exact E|].
      rewrite Forall_forall in Hy, HPl. apply Forall_forall. intros z Hz.
      eapply (trans_on x y z); auto.
Qed.

Lemma sort_sorted_on (l : list A) :
  Forall P l -> StronglySorted (in_order comparefn) (sort comparefn l).
Proof.
  induction l as [|x l IH]; simpl; [constructor|].
  intros [Hx Hl]%Forall_cons. apply insert_sorted_sorted_on; auto.
  by rewrite sort_perm.
Qed.

End ArraySortOn.

Lemma StronglySorted_weaken_on {A : Type} (P : A -> Prop)
    (R R' : A -> A -> Prop) (l : list A) :
  (forall x y, P x -> P y -> R x y -> R' x y) ->
  Forall P l -> StronglySorted R l -> StronglySorted R' l.
Proof.
  intros HR HP Hl. induction Hl as [|x l Hl IH Hx]; [constructor|].
  apply Forall_cons in HP as [HPx HPl]. constructor; [by apply IH|].
  rewrite Forall_forall in Hx, HPl. apply Forall_forall. intros y Hy.
  apply HR; auto.
Qed.

Lemma filtered_Forall toLowerCase (P : LogEntry -> Prop) logs filter sel :
  Forall P logs -> Forall P (filtered toLowerCase logs filter sel).
Proof.
  rewrite !Forall_forall. intros HP log Hin. apply HP.
  eapply elem_of_sublist; [exact Hin | apply filtered_sublist].
Qed.

(** X12.  When every timestamp of the logs parses, the view sorted by
    timestamp is in time order: ascending, no row is later than a row
    after it; descending, no row is earlier than a row after it. *)
Theorem timestamp_sort_in_time_order toLowerCase getTime localeCompare
    (logs : list LogEntry) (filter : string) (sel : option string) :
  (forall log, log ∈ logs -> getTime (timestamp log) <> Js.NaN) ->
  StronglySorted
    (fun a b => exists ta tb, getTime (timestamp a) = Js.Num ta
                              /\ getTime (timestamp b) = Js.Num tb
                              /\ (ta <= tb)%Z)
    (processedLogs toLowerCase getTime localeCompare logs filter
       by_timestamp asc sel)
  /\ StronglySorted
       (fun a b => exists ta tb, getTime (timestamp a) = Js.Num ta
                                 /\ getTime (timestamp b) = Js.Num tb
                                 /\ (tb <= ta)%Z)
       (processedLogs toLowerCase getTime localeCompare logs filter
          by_timestamp desc sel).
Proof.
  intros Hparse. rewrite !view_sorts_filtered.
  set (P := fun log : LogEntry => exists t, getTime (timestamp log) = Js.Num t).
  assert (Forall P (filtered toLowerCase logs filter sel)) as HP.
  { apply filtered_Forall, Forall_forall. intros log Hin. unfold P.
    specialize (Hparse log Hin).
    destruct (getTime (timestamp log)) as [|t]; [done | by exists t]. }
  split.
  - apply (StronglySorted_weaken_on P
             (in_order (comparator getTime localeCompare by_timestamp asc))).
    + intros x y [tx Hx] [ty Hy]. unfold in_order, sortCompare. simpl.
      rewrite Hx, Hy. simpl. intros H. exists tx, ty. repeat split; auto; lia.
    + by rewrite sort_perm.
    + apply (sort_sorted_on _ P); [| |exact HP].
      * intros x y [tx Hx] [ty Hy]. unfold in_order, sortCompare. simpl.
        rewrite Hx, Hy. simpl. lia.
      * intros x y z [tx Hx] [ty Hy] [tz Hz]. unfold in_order, sortCompare.
        simpl. rewrite Hx, Hy, Hz. simpl. lia.
  - apply (StronglySorted_weaken_on P
             (in_order (comparator getTime localeCompare by_timestamp desc))).
    + intros x y [tx Hx] [ty Hy]. unfold in_order, sortCompare. simpl.
      rewrite Hx, Hy. simpl. intros H. exists tx, ty. repeat split; auto; lia.
    + by rewrite sort_perm.
    + apply (sort_sorted_on _ P); [| |exact HP].
      * intros x y [tx Hx] [ty Hy]. unfold in_order, sortCompare. simpl.
        rewrite Hx, Hy. simpl. lia.
      * intros x y z [tx Hx] [ty Hy] [tz Hz]. unfold in_order, sortCompare.
        simpl. rewrite Hx, Hy, Hz. simpl. lia.
Qed.

Lemma timestamp_sort_in_time_order_witness :
  processedLogs Js.ascii_toLowerCase length_time Js.ascii_compare logs_132 ""
    by_timestamp desc None
  = [mkLog "aaa" "auth" "" (Some low) None;
     mkLog "aa" "ids" "" (Some low) None;
     mkLog "a" "fw" "" (Some low) None]
  /\ StronglySorted
       (fun a b => exists ta tb, length_time (timestamp a) = Js.Num ta
                                 /\ length_time (timestamp b) = Js.Num tb
                                 /\ (tb <= ta)%Z)
       (processedLogs Js.ascii_toLowerCase length_time Js.ascii_compare
          logs_132 "" by_timestamp desc None).
Proof.
  split; [reflexivity|].
  apply (timestamp_sort_in_time_order Js.ascii_toLowerCase length_time
           Js.ascii_compare logs_132 "" None).
  intros log _. discriminate.
Defined.

Lemma ascii_compare_antisym (a b : string) :
  Js.ascii_compare b a = (- Js.ascii_compare a b)%Z.
Proof.
  revert b. induction a as [|x a IH]; intros [|y b]; simpl; try done.
  rewrite (Nat.compare_antisym (Ascii.nat_of_ascii x) (Ascii.nat_of_ascii y)).
  destruct (Ascii.nat_of_ascii x ?= Ascii.nat_of_ascii y); simpl; auto.
Qed.

Lemma ascii_compare_trans (a b c : string) :
  (Js.ascii_compare a b <= 0)%Z -> (Js.ascii_compare b c <= 0)%Z ->
  (Js.ascii_compare a c <= 0)%Z.
Proof.
  revert b c. induction a as [|x a IH]; intros [|y b] [|z c]; simpl;
    try done; try lia.
  destruct (Nat.compare_spec (Ascii.nat_of_ascii x) (Ascii.nat_of_ascii y));
    destruct (Nat.compare_spec (Ascii.nat_of_ascii y) (Ascii.nat_of_ascii z));
    destruct (Nat.compare_spec (Ascii.nat_of_ascii x) (Ascii.nat_of_ascii z));
    try lia; try done.
  apply IH.
Qed.

(** X13.  When [localeCompare] is an order on the sources (its sign
    flips when its arguments are swapped, and it is transitive), the view
    sorted by source is in that order, upwards when ascending and
    downwards when descending. *)
Theorem source_sort_in_order toLowerCase getTime
    (localeCompare : string -> string -> Z)
    (logs : list LogEntry) (filter : string) (sel : option string) :
  (forall a b, Z.sgn (localeCompare b a) = (- Z.sgn (localeCompare a b))%Z) ->
  (forall a b c, (localeCompare a b <= 0)%Z -> (localeCompare b c <= 0)%Z ->
                 (localeCompare a c <= 0)%Z) ->
  StronglySorted
    (fun a b => (localeCompare (source a) (source b) <= 0)%Z)
    (processedLogs toLowerCase getTime localeCompare logs filter
       by_source asc sel)
  /\ StronglySorted
       (fun a b => (0 <= localeCompare (source a) (source b))%Z)
       (processedLogs toLowerCase getTime localeCompare logs filter
          by_source desc sel).
Proof.
  intros Hanti Htrans. rewrite !view_sorts_filtered. split.
  - apply (StronglySorted_weaken
             (in_order (comparator getTime localeCompare by_source asc)));
      [done|].
    apply sort_sorted; unfold in_order, sortCompare; simpl.
    + intros x y H. specialize (Hanti (source x) (source y)). lia.
    + intros x y z. apply Htrans.
  - apply (StronglySorted_weaken
             (in_order (comparator getTime localeCompare by_source desc)));
      [unfold in_order, sortCompare; simpl; intros; lia|].
    apply sort_sorted; unfold in_order, sortCompare; simpl.
    + intros x y H. specialize (Hanti (source x) (source y)). lia.
    + intros x y z Hxy Hyz.
      pose proof (Hanti (source x) (source y)).
      pose proof (Hanti (source y) (source z)).
      pose proof (Hanti (source x) (source z)).
      pose proof (Htrans (source z) (source y) (source x)). lia.
Qed.

Lemma source_sort_in_order_witness :
  processedLogs Js.ascii_toLowerCase no_time Js.ascii_compare logs_132 ""
    by_source asc None
  = [mkLog "aaa" "auth" "" (Some low) None;
     mkLog "a" "fw" "" (Some low) None;
     mkLog "aa" "ids" "" (Some low) None]
  /\ StronglySorted
       (fun a b => (Js.ascii_compare (source a) (source b) <= 0)%Z)
       (processedLogs Js.ascii_toLowerCase no_time Js.ascii_compare logs_132 ""
          by_source asc None).
Proof.
  split; [reflexivity|].
  apply (source_sort_in_order Js.ascii_toLowerCase no_time Js.ascii_compare
           logs_132 "" None).
  - intros a b. by rewrite ascii_compare_antisym, Z.sgn_opp.
  - apply ascii_compare_trans.
Defined.

Section ArraySortStable.

Context {A : Type} (comparefn : A -> A -> Js.number) (p : A -> bool).

(** No element of the class [p] must move behind another one. *)
Hypothesis tie :
  forall x y, p x = true -> p y = true -> (sortCompare comparefn x y <= 0)%Z.

Lemma insert_sorted_filter (x : A) (l : list A) :
  List.filter p (insert_sorted comparefn x l) = List.filter p (x :: l).
Proof.
  induction l as [|y l IH]; [done|].
  cbn [insert_sorted].
  destruct (0 <? sortCompare comparefn x y)%Z eqn:E; [|done].
  apply Z.ltb_lt in E. cbn [List.filter] in *.
  destruct (p x) eqn:Hx, (p y) eqn:Hy; rewrite IH; try done.
  pose proof (tie x y Hx Hy). lia.
Qed.

(** The built-in sort is stable: elements that tie keep their order. *)
Lemma sort_stable (l : list A) :
  List.filter p (sort comparefn l) = List.filter p l.
Proof.
  induction l as [|x l IH]; [done|].
  cbn [sort]. rewrite insert_sorted_filter. cbn [List.filter]. by rewrite IH.
Qed.

End ArraySortStable.

(** X14.  Sorting is stable where the comparator is an order: when, on
    the logs, the sign of the comparator flips with its arguments and the
    comparator is transitive (as the severity comparator always is, and
    the timestamp comparator when every timestamp parses), the rows of a
    class whose members the comparator does not tell apart stand in the
    view in the order in which they passed the filters. *)
Theorem view_keeps_order_of_ties toLowerCase getTime localeCompare
    (logs : list LogEntry) (filter : string) (field : SortField)
    (dir : SortDirection) (sel : option string) (p : LogEntry -> bool) :
  (forall a b, a ∈ logs -> b ∈ logs ->
     Z.sgn (sortCompare (comparator getTime localeCompare field dir) b a)
     = (- Z.sgn (sortCompare (comparator getTime localeCompare field dir) a b))%Z) ->
  (forall a b c, a ∈ logs -> b ∈ logs -> c ∈ logs ->
     (sortCompare (comparator getTime localeCompare field dir) a b <= 0)%Z ->
     (sortCompare (comparator getTime localeCompare field dir) b c <= 0)%Z ->
     (sortCompare (comparator getTime localeCompare field dir) a c <= 0)%Z) ->
  (forall a b, p a = true -> p b = true ->
     sortCompare (comparator getTime localeCompare field dir) a b = 0%Z) ->
  List.filter p
    (processedLogs toLowerCase getTime localeCompare logs filter field dir sel)
  = List.filter p (filtered toLowerCase logs filter sel).
Proof.
  intros _ _ Htie. rewrite view_sorts_filtered. apply sort_stable.
  intros x y Hx Hy. by rewrite Htie.
Qed.

Lemma view_keeps_order_of_ties_witness :
  processedLogs Js.ascii_toLowerCase no_time Js.ascii_compare
    [log_critical; log_unknown; log_high] "" by_severity asc None
  = [log_high; log_critical; log_unknown]
  /\ List.filter key_is_4
       (processedLogs Js.ascii_toLowerCase no_time Js.ascii_compare
          [log_critical; log_unknown; log_high] "" by_severity asc None)
     = List.filter key_is_4
         (filtered Js.ascii_toLowerCase [log_critical; log_unknown; log_high]
            "" None).
Proof.
  split; [reflexivity|].
  apply (view_keeps_order_of_ties Js.ascii_toLowerCase no_time Js.ascii_compare
           [log_critical; log_unknown; log_high] "" by_severity asc None
           key_is_4).
  - intros a b _ _. rewrite !sortCompare_severity_asc.
    rewrite <- Z.sgn_opp. f_equal. lia.
  - intros a b c _ _ _. rewrite !sortCompare_severity_asc. lia.
  - intros a b Ha Hb. rewrite sortCompare_severity_asc.
    unfold key_is_4 in Ha, Hb. apply Z.eqb_eq in Ha, Hb. lia.
Defined.

(** X15.  The view sorted by severity is in the order of the keys the
    comparator computes: high (1), medium (2), low (3), then critical and
    no severity together (4), upwards when ascending and downwards when
    descending. *)
Theorem severity_sort_in_key_order toLowerCase getTime localeCompare
    (logs : list LogEntry) (filter : string) (sel : option string) :
  StronglySorted (fun a b => (severity_key a <= severity_key b)%Z)
    (processedLogs toLowerCase getTime localeCompare logs filter
       by_severity asc sel)
  /\ StronglySorted (fun a b => (severity_key b <= severity_key a)%Z)
       (processedLogs toLowerCase getTime localeCompare logs filter
          by_severity desc sel)
  /\ (forall log,
        severity_key log
        = match severity log with
          | Some high => 1
          | Some medium => 2
          | Some low => 3
          | Some critical | None => 4
          end%Z).
Proof.
  rewrite !view_sorts_filtered. split; [|split].
  - eapply StronglySorted_weaken; [|apply severity_sorted].
    intros x y. unfold in_order. rewrite sortCompare_severity_asc. lia.
  - eapply StronglySorted_weaken; [|apply severity_sorted].
    intros x y. unfold in_order. rewrite sortCompare_severity_desc. lia.
  - intros log. unfold severity_key. by destruct (severity log) as [[]|].
Qed.

(** X16.  The severity selector matches names exactly: selecting a
    non-empty string that is not the name of a severity, such as a name
    in another letter case, leaves the view empty. *)
Theorem unknown_selection_empties_view toLowerCase getTime localeCompare
    (logs : list LogEntry) (filter : string) (field : SortField)
    (dir : SortDirection) (sel : string) :
  sel <> EmptyString ->
  (forall s, severity_name s <> sel) ->
  processedLogs toLowerCase getTime localeCompare logs filter field dir
    (Some sel) = [].
Proof.
  intros Hne Hname. apply elem_of_nil_inv. intros log Hin.
  rewrite view_sorts_filtered, sort_perm in Hin.
  apply elem_of_filtered in Hin as (_ & _ & Hsel). simpl in Hsel.
  destruct Hsel as [Hempty | (s & _ & Hs)]; [done|]. by apply (Hname s).
Qed.

Lemma unknown_selection_empties_view_witness :
  processedLogs Js.ascii_toLowerCase no_time Js.ascii_compare
    [log_critical; log_high; log_unknown] "" by_timestamp desc (Some "High")
  = [].
Proof.
  apply (unknown_selection_empties_view Js.ascii_toLowerCase no_time
           Js.ascii_compare [log_critical; log_high; log_unknown] ""
           by_timestamp desc "High").
  - discriminate.
  - intros s. by destruct s.
Defined.

(** ** Batches of logs and the letter case of the filter *)

Lemma classify_fixed toLowerCase (log : LogEntry) :
  known_severity log = true -> Js.truthy (type log) = true ->
  classify toLowerCase log = log.
Proof.
  intros Hs Ht. unfold classify. rewrite classify_severity_set by done.
  by apply classify_type_set.
Qed.

Lemma classify_keeps_fields toLowerCase (log : LogEntry) :
  timestamp (classify toLowerCase log) = timestamp log
  /\ source (classify toLowerCase log) = source log
  /\ content (classify toLowerCase log) = content log.
Proof.
  unfold classify, classify_type, classify_severity.
  destruct (severity log); destruct (Js.truthy _); case_includes; done.
Qed.

(** X17.  Classifying a batch keeps the number and the order of its
    records and the timestamp, source and content of each; every record
    of the result has a severity and a non-empty type, and classifying
    the result again changes nothing. *)
Theorem enhancedLogs_keeps_batch toLowerCase (logsData : list LogEntry) :
  length (enhancedLogs toLowerCase logsData) = length logsData
  /\ map timestamp (enhancedLogs toLowerCase logsData) = map timestamp logsData
  /\ map source (enhancedLogs toLowerCase logsData) = map source logsData
  /\ map content (enhancedLogs toLowerCase logsData) = map content logsData
  /\ Forall (fun log => known_severity log = true
                        /\ Js.truthy (type log) = true)
            (enhancedLogs toLowerCase logsData)
  /\ enhancedLogs toLowerCase (enhancedLogs toLowerCase logsData)
     = enhancedLogs toLowerCase logsData.
Proof.
  unfold enhancedLogs.
  induction logsData as [|log l (IHlen & IHt & IHs & IHc & IHf & IHi)];
    [by repeat split|].
  destruct (classify_keeps_fields toLowerCase log) as (Ht & Hs & Hc).
  destruct (classify_classified toLowerCase log) as (Hk & Hty).
  cbn [map length]. rewrite Ht, Hs, Hc, IHt, IHs, IHc, IHlen, IHi.
  rewrite (classify_fixed toLowerCase (classify toLowerCase log) Hk Hty).
  repeat split. by constructor.
Qed.

Lemma matchesFilter_lowered toLowerCase (filter : string) (log : LogEntry) :
  toLowerCase (toLowerCase filter) = toLowerCase filter ->
  matchesFilter toLowerCase (toLowerCase filter) log
  = matchesFilter toLowerCase filter log.
Proof. unfold matchesFilter. by intros ->. Qed.

(** X18.  The letter case of the filter text does not matter: when
    lower-casing twice is lower-casing once, and only the empty string
    lower-cases to the empty string, the view for a filter text is the
    view for its lower-cased form. *)
Theorem filter_text_case_is_ignored (toLowerCase : string -> string)
    getTime localeCompare (logs : list LogEntry) (filter : string)
    (field : SortField) (dir : SortDirection) (sel : option string) :
  (forall s, toLowerCase (toLowerCase s) = toLowerCase s) ->
  (forall s, toLowerCase s = EmptyString <-> s = EmptyString) ->
  processedLogs toLowerCase getTime localeCompare logs (toLowerCase filter)
    field dir sel
  = processedLogs toLowerCase getTime localeCompare logs filter field dir sel.
Proof.
  intros Hidem Hempty. unfold processedLogs.
  assert (Js.truthy_string (toLowerCase filter) = Js.truthy_string filter) as ->.
  { destruct filter as [|c f].
    - by rewrite (proj2 (Hempty EmptyString) eq_refl).
    - destruct (toLowerCase (String c f)) eqn:E; [|done].
      apply (proj1 (Hempty _)) in E. discriminate E. }
  destruct (Js.truthy_string filter); [|done].
  assert (List.filter (matchesFilter toLowerCase (toLowerCase filter)) logs
          = List.filter (matchesFilter toLowerCase filter) logs) as ->; [|done].
  apply filter_ext. intros log. by apply matchesFilter_lowered.
Qed.

Lemma ascii_lower_idem (c : Ascii.ascii) :
  Js.ascii_lower (Js.ascii_lower c) = Js.ascii_lower c.
Proof. by destruct c as [[] [] [] [] [] [] [] []]. Qed.

Lemma ascii_toLowerCase_idem (s : string) :
  Js.ascii_toLowerCase (Js.ascii_toLowerCase s) = Js.ascii_toLowerCase s.
Proof.
  induction s as [|c s IH]; [done|]. simpl. by rewrite ascii_lower_idem, IH.
Qed.

Lemma filter_text_case_is_ignored_witness :
  processedLogs Js.ascii_toLowerCase no_time Js.ascii_compare
    [log_critical; log_high; log_unknown] (Js.ascii_toLowerCase "IDS")
    by_timestamp desc None
  = processedLogs Js.ascii_toLowerCase no_time Js.ascii_compare
      [log_critical; log_high; log_unknown] "IDS" by_timestamp desc None.
Proof.
  apply (filter_text_case_is_ignored Js.ascii_toLowerCase no_time
           Js.ascii_compare [log_critical; log_high; log_unknown] "IDS"
           by_timestamp desc None).
  - apply ascii_toLowerCase_idem.
  - intros s. split; [by destruct s | by intros ->].
Defined.

(** ** Records without severity in the view sorted by severity *)



